(** * Alas uiautomator2 device method: retry dispatcher and drag gesture

    A shallow embedding of [module/device/method/uiautomator_2.py]:
    the [retry] decorator with its ordered [except] clauses, the
    [_drag_along] touch traversal, the waypoint synthesis of
    [drag_uiautomator2] and [app_start_uiautomator2].

    Device calls are functions on an abstract device state that also
    report the calls they made; exceptions are values. *)

From Stdlib Require Import List ZArith QArith Qabs Qround String Ascii Bool Lia.
From Stdlib Require Qcanon.
Import ListNotations.

Set Implicit Arguments.

(** ** Exceptions *)

(** The concrete class of a raised exception, as far as the handlers of
    this file tell classes apart; an instance of a subclass counts under
    the class that catches it.  Every value is an instance of
    [Exception]: the interpreter's own signals ([KeyboardInterrupt],
    [SystemExit]) are no errors of a device call and are left out. *)
Inductive exn_class : Type :=
| RequestHumanTakeover
| ConnectionResetError
| JSONDecodeError
| AdbError
| RuntimeError
| AssertionError
| U2BaseError
| OtherException.

(** An exception instance: its class and the arguments it was built with
    ([e.args]); [raise C] with a bare class builds [C()] with no
    argument. *)
Record exn : Type := Exn { exn_cls : exn_class; exn_args : list string }.

Definition raise_bare (c : exn_class) : exn := Exn c [].

(** The classes named in [except] clauses. *)
Inductive except_class : Type :=
| ExRequestHumanTakeover
| ExConnectionResetError
| ExJSONDecodeError
| ExAdbError
| ExRuntimeError
| ExAssertionError
| ExU2BaseError
| ExException.

(** [isinstance e c]: does clause class [c] catch [e]?  [Exception]
    catches every instance. *)
Definition isinstance (e : exn) (c : except_class) : bool :=
  match c, exn_cls e with
  | ExException, _ => true
  | ExRequestHumanTakeover, RequestHumanTakeover => true
  | ExConnectionResetError, ConnectionResetError => true
  | ExJSONDecodeError, JSONDecodeError => true
  | ExAdbError, AdbError => true
  | ExRuntimeError, RuntimeError => true
  | ExAssertionError, AssertionError => true
  | ExU2BaseError, U2BaseError => true
  | _, _ => false
  end.

Inductive outcome (A : Type) : Type :=
| Return (a : A)
| Raise (e : exn).
Arguments Return {A} a.
Arguments Raise {A} e.

(** ** Calls made on the collaborators *)

Inductive phase : Type := Down | Move | Up.

Inductive action : Type :=
| LogInfo (msg : string)
| LogError (e : exn)
| LogException (e : exn)
| LogCritical (msg : string)
| PossibleReasons (msg : string)
| Sleep (second : Q)
| AdbConnect (serial : string)
| InstallUiautomator2
| HandleAdbError (e : exn)
| Touch (ph : phase) (x y : Z)
| AppStart (package_name : string).

(** What the retry wrapper does, in order: an invocation of the wrapped
    function (with the calls that invocation made and the exception it
    raised, if any), or a call of the wrapper's own. *)
Inductive event : Type :=
| Invoke (acts : list action) (raised : option exn)
| Act (a : action).

Definition is_invoke (ev : event) : bool :=
  match ev with Invoke _ _ => true | Act _ => false end.

Definition invocations (tr : list event) : nat :=
  List.length (filter is_invoke tr).

Definition count_act (p : action -> bool) (tr : list event) : nat :=
  List.length (filter (fun ev => match ev with Act a => p a | Invoke _ _ => false end) tr).

Definition is_reconnect (a : action) : bool :=
  match a with AdbConnect _ => true | _ => false end.
Definition is_reinstall (a : action) : bool :=
  match a with InstallUiautomator2 => true | _ => false end.
Definition is_sleep (a : action) : bool :=
  match a with Sleep _ => true | _ => false end.
Definition is_critical (a : action) : bool :=
  match a with LogCritical _ => true | _ => false end.
Definition is_touch_up (a : action) : bool :=
  match a with Touch Up _ _ => true | _ => false end.
Definition is_app_start (a : action) : bool :=
  match a with AppStart _ => true | _ => false end.

(** How an [except] clause leaves the [for] loop body. *)
Inductive flow : Type :=
| Continue   (* fall out of the try statement, to [self.sleep(RETRY_DELAY)] *)
| Break      (* [break] *)
| Propagate. (* no clause matched: the exception leaves the wrapper *)

Inductive loop_exit (A : Type) : Type :=
| Returned (a : A)
| Broke
| Exhausted
| Uncaught (e : exn).
Arguments Returned {A} a.
Arguments Broke {A}.
Arguments Exhausted {A}.
Arguments Uncaught {A} e.

Definition dquote : string := String "034"%char EmptyString.

Section Uiautomator2.

(** The device object [self] and the collaborators this file imports.
  [RETRY_TRIES], [RETRY_DELAY], [handle_adb_error] and [point2str]
  come from modules that are not part of these sources, as do the
  methods [adb_connect], [install_uiautomator2] and [sleep] of the
  connection; the recovery methods are taken to return.  [u2_touch]
  and [u2_app_start] stand for the agent calls [self.u2.touch.down],
  [.move], [.up] and [self.u2.app_start], which return or raise. *)
Variable D : Type.
Variable RETRY_TRIES : nat.
Variable RETRY_DELAY : Q.
Variable serial : D -> string.
Variable adb_connect : string -> D -> D.
Variable install_uiautomator2 : D -> D.
Variable sleep : Q -> D -> D.
Variable handle_adb_error : exn -> bool.
Variable point2str : Z -> Z -> string.
Variable u2_touch : phase -> Z -> Z -> D -> option exn * D.
Variable u2_app_start : string -> D -> option exn * D.

(** A method body: runs on the device, returns or raises, and reports
  the calls it made. *)
Definition M (A : Type) : Type := D -> outcome A * D * list action.

Definition ret {A} (a : A) : M A := fun self => (Return a, self, []).

Definition bind {A B} (m : M A) (k : A -> M B) : M B :=
  fun self =>
    match m self with
    | (Return a, self1, acts1) =>
        match k a self1 with
        | (r, self2, acts2) => (r, self2, acts1 ++ acts2)
        end
    | (Raise e, self1, acts1) => (Raise e, self1, acts1)
    end.

Definition throw {A} (e : exn) : M A := fun self => (Raise e, self, []).

(** [try: m  except c as e: h e] *)
Definition try_except {A} (m : M A) (c : except_class) (h : exn -> M A) : M A :=
  fun self =>
    match m self with
    | (Return a, self1, acts1) => (Return a, self1, acts1)
    | (Raise e, self1, acts1) =>
        if isinstance e c then
          match h e self1 with
          | (r, self2, acts2) => (r, self2, acts1 ++ acts2)
          end
        else (Raise e, self1, acts1)
    end.

Definition tell (a : action) : M unit := fun self => (Return tt, self, [a]).

Definition self_sleep (second : Q) : M unit :=
  fun self => (Return tt, sleep second self, [Sleep second]).

(** A call of the automation agent: the call is made, then it returns
  or raises. *)
Definition agent_call (a : action) (f : D -> option exn * D) : M unit :=
  fun self =>
    match f self with
    | (None, self1) => (Return tt, self1, [a])
    | (Some e, self1) => (Raise e, self1, [a])
    end.

Notation "x <- m ;; k" := (bind m (fun x => k))
  (at level 61, m at next level, right associativity).
Notation "m ;; k" := (bind m (fun _ => k))
  (at level 61, right associativity).

(** ** The [retry] decorator *)

Definition handler : Type := exn -> D -> flow * D * list action.

Definition on_human_takeover : handler :=
  fun _ self => (Break, self, []).

Definition on_connection_reset : handler :=
  fun e self =>
    (Continue, adb_connect (serial self) self,
     [LogError e; AdbConnect (serial self)]).

Definition on_json_decode : handler :=
  fun e self =>
    (Continue, install_uiautomator2 self, [LogError e; InstallUiautomator2]).

Definition on_adb_error : handler :=
  fun e self =>
    (if negb (handle_adb_error e) then Break else Continue,
     self, [HandleAdbError e]).

Definition enable_adb_hint : string :=
  "If you are using BlueStacks or LD player, please enable ADB in the settings of your emulator".

Definition on_assertion : handler :=
  fun e self =>
    (Break, self, [LogException e; PossibleReasons enable_adb_hint]).

Definition on_unknown : handler :=
  fun e self => (Continue, self, [LogException e]).

(** The [except] clauses of [retry_wrapper], in source order. *)
Definition retry_clauses : list (except_class * handler) :=
  [ (ExRequestHumanTakeover, on_human_takeover);
    (ExConnectionResetError, on_connection_reset);
    (ExJSONDecodeError, on_json_decode);
    (ExAdbError, on_adb_error);
    (ExRuntimeError, on_adb_error);
    (ExAssertionError, on_assertion);
    (ExException, on_unknown) ].

(** The first clause whose class catches [e] runs. *)
Definition except_dispatch (e : exn) (self : D) : flow * D * list action :=
  match find (fun cl => isinstance e (fst cl)) retry_clauses with
  | Some (_, h) => h e self
  | None => (Propagate, self, [])
  end.

(** [for _ in range(n): try: return func(self) except ...; self.sleep(RETRY_DELAY)] *)
Fixpoint retry_loop {A} (func : M A) (n : nat) (self : D)
  : loop_exit A * D * list event :=
  match n with
  | O => (Exhausted, self, [])
  | S n' =>
      match func self with
      | (Return a, self1, acts) => (Returned a, self1, [Invoke acts None])
      | (Raise e, self1, acts) =>
          match except_dispatch e self1 with
          | (Break, self2, rec) =>
              (Broke, self2, Invoke acts (Some e) :: map Act rec)
          | (Propagate, self2, rec) =>
              (Uncaught e, self2, Invoke acts (Some e) :: map Act rec)
          | (Continue, self2, rec) =>
              match retry_loop func n' (sleep RETRY_DELAY self2) with
              | (r, self3, tr) =>
                  (r, self3,
                   Invoke acts (Some e)
                     :: map Act rec ++ Act (Sleep RETRY_DELAY) :: tr)
              end
          end
      end
  end.

Definition retry_failed_message (name : string) : string :=
  ("Retry " ++ name ++ "() failed")%string.

(** [retry(func)], where [name] is [func.__name__]. *)
Definition retry {A} (name : string) (func : M A) (self : D)
  : outcome A * D * list event :=
  match retry_loop func RETRY_TRIES self with
  | (Returned a, self1, tr) => (Return a, self1, tr)
  | (Uncaught e, self1, tr) => (Raise e, self1, tr)
  | (Broke, self1, tr) | (Exhausted, self1, tr) =>
      (Raise (raise_bare RequestHumanTakeover), self1,
       tr ++ [Act (LogCritical (retry_failed_message name))])
  end.

(** ** [_drag_along] *)

(** A path element [(x, y, sleep)]. *)
Definition waypoint : Type := (Z * Z * Q)%type.

(** One round of [for index, data in enumerate(path)]. *)
Definition drag_along_step (length index : nat) (data : waypoint) : M unit :=
  let '(x, y, second) := data in
  (if (index =? 0)%nat then
     agent_call (Touch Down x y) (u2_touch Down x y) ;;
     tell (LogInfo (point2str x y ++ " down")%string)
   else if (Z.of_nat index - Z.of_nat length =? -1)%Z then
     agent_call (Touch Up x y) (u2_touch Up x y) ;;
     tell (LogInfo (point2str x y ++ " up")%string)
   else
     agent_call (Touch Move x y) (u2_touch Move x y) ;;
     tell (LogInfo (point2str x y ++ " move")%string)) ;;
  self_sleep second.

Fixpoint drag_along_loop (length index : nat) (path : list waypoint) : M unit :=
  match path with
  | [] => ret tt
  | data :: rest =>
      drag_along_step length index data ;;
      drag_along_loop length (S index) rest
  end.

(** The function under the decorator. *)
Definition drag_along_func (path : list waypoint) : M unit :=
  drag_along_loop (List.length path) 0 path.

Definition _drag_along (path : list waypoint) (self : D)
  : outcome unit * D * list event :=
  retry "_drag_along" (drag_along_func path) self.

(** ** [app_start_uiautomator2] *)

Definition package_hint (package_name : string) : string :=
  (dquote ++ package_name ++ dquote
     ++ " not found, please check setting Emulator.PackageName")%string.

Definition app_start_func (package_name : string) : M unit :=
  try_except
    (agent_call (AppStart package_name) (u2_app_start package_name))
    ExU2BaseError
    (fun e =>
       tell (LogError e) ;;
       tell (PossibleReasons (package_hint package_name)) ;;
       throw (raise_bare RequestHumanTakeover)).

Definition app_start_uiautomator2 (package_name : string) (self : D)
  : outcome unit * D * list event :=
  retry "app_start_uiautomator2" (app_start_func package_name) self.

(** ** [drag_uiautomator2] *)

(** A rectangle [(x0, y0, x1, y1)]. *)
Definition area : Type := (Q * Q * Q * Q)%type.

(** Python's [int(x)] on a real number: the fraction is dropped, so the
    result is the integer next to [x] on the side of zero. *)
Definition py_int (x : Q) : Z := Z.quot (Qnum x) (Zpos (Qden x)).

(** *** The numbers of a numpy array

    [np.array] of a pair of Python numbers is an int64 array when both
    are ints and a float64 array otherwise.  An int64 is held by its
    value, taken to lie in the int64 range; a finite double is held by
    the rational it stands for; [Inf true] is -inf. *)
Inductive num : Type :=
| Int64 (z : Z)
| Float64 (q : Q)
| Inf (negative : bool)
| NaN.

Definition np_value (a : num) : option Q :=
  match a with
  | Int64 z => Some (inject_Z z)
  | Float64 q => Some q
  | Inf _ | NaN => None
  end.

(** int64 arithmetic wraps around. *)
Definition wrap64 (z : Z) : Z := ((z + 2 ^ 63) mod 2 ^ 64 - 2 ^ 63)%Z.

(** The integer nearest to [a / b], the even one of two equally near
    ([0 <= a], [0 < b]). *)
Definition rne_div (a b : Z) : Z :=
  let q := (a / b)%Z in
  match (2 * (a mod b) ?= b)%Z with
  | Lt => q
  | Gt => (q + 1)%Z
  | Eq => if Z.even q then q else (q + 1)%Z
  end.

(** The [e] with [2 ^ e <= a / b < 2 ^ (e + 1)] ([0 < a], [0 < b]). *)
Definition floor_log2 (a b : Z) : Z :=
  let e0 := (Z.log2 a - Z.log2 b)%Z in
  let above :=
    if (0 <=? e0)%Z then (b * 2 ^ e0 <=? a)%Z else (b <=? a * 2 ^ (- e0))%Z in
  if above then e0 else (e0 - 1)%Z.

(** The double nearest to [a / b > 0], ties to the even mantissa: 53
    bits of mantissa, no unit in the last place below [2 ^ -1074]; none
    when the result is beyond the largest double. *)
Definition round64_pos (a b : Z) : option Q :=
  let e := floor_log2 a b in
  let u := Z.max (e - 52) (-1074) in
  let n :=
    if (0 <=? u)%Z then rne_div a (b * 2 ^ u) else rne_div (a * 2 ^ (- u)) b in
  if (1024 <=? Z.log2 n + u)%Z then None
  else Some (if (0 <=? u)%Z then inject_Z (n * 2 ^ u)
             else Qmake n (Z.to_pos (2 ^ (- u)))).

(** The result of a float64 operation whose exact result is [q]. *)
Definition round64 (q : Q) : num :=
  let r := Qred q in
  match Qnum r with
  | Z0 => Float64 0
  | Zpos a =>
      match round64_pos (Zpos a) (Zpos (Qden r)) with
      | Some v => Float64 v
      | None => Inf false
      end
  | Zneg a =>
      match round64_pos (Zpos a) (Zpos (Qden r)) with
      | Some v => Float64 (- v)
      | None => Inf true
      end
  end.

(** Conversion to float64. *)
Definition to_float (a : num) : num :=
  match a with
  | Int64 z => round64 (inject_Z z)
  | _ => a
  end.

Definition is_negative (q : Q) : bool := (Qnum q <? 0)%Z.
Definition is_zero (q : Q) : bool := (Qnum q =? 0)%Z.

(** The float64 operations. *)
Definition float_add (a b : num) : num :=
  match to_float a, to_float b with
  | Float64 x, Float64 y => round64 (x + y)
  | Inf s, Inf t => if Bool.eqb s t then Inf s else NaN
  | Inf s, Float64 _ => Inf s
  | Float64 _, Inf t => Inf t
  | _, _ => NaN
  end.

Definition float_sub (a b : num) : num :=
  match to_float a, to_float b with
  | Float64 x, Float64 y => round64 (x - y)
  | Inf s, Inf t => if Bool.eqb s t then NaN else Inf s
  | Inf s, Float64 _ => Inf s
  | Float64 _, Inf t => Inf (negb t)
  | _, _ => NaN
  end.

Definition float_mul (a b : num) : num :=
  match to_float a, to_float b with
  | Float64 x, Float64 y => round64 (x * y)
  | Inf s, Inf t => Inf (xorb s t)
  | Inf s, Float64 y | Float64 y, Inf s =>
      if is_zero y then NaN else Inf (xorb s (is_negative y))
  | _, _ => NaN
  end.

(** A pair [(x, y)]: a tuple of Python numbers, or an array of two. *)
Definition point : Type := (num * num)%type.

Definition is_int64 (a : num) : bool :=
  match a with Int64 _ => true | _ => false end.

Definition int_array (p : point) : bool :=
  is_int64 (fst p) && is_int64 (snd p).

(** [np.array(p)]: one float makes both numbers floats. *)
Definition np_array (p : point) : point :=
  if int_array p then p else (to_float (fst p), to_float (snd p)).

Definition elem_op (fz : Z -> Z -> Z) (ff : num -> num -> num) (ints : bool)
  (a b : num) : num :=
  match ints, a, b with
  | true, Int64 x, Int64 y => Int64 (wrap64 (fz x y))
  | _, _, _ => ff a b
  end.

(** An operation on two arrays: in int64 when both are int64 arrays, in
    float64 otherwise. *)
Definition array_op (fz : Z -> Z -> Z) (ff : num -> num -> num) (p q : point)
  : point :=
  let ints := int_array p && int_array q in
  (elem_op fz ff ints (fst p) (fst q), elem_op fz ff ints (snd p) (snd q)).

Definition np_add : point -> point -> point := array_op Z.add float_add.
Definition np_sub : point -> point -> point := array_op Z.sub float_sub.

(** [k * p] for a Python int [k]. *)
Definition np_scale (k : Z) (p : point) : point :=
  array_op Z.mul float_mul (Int64 k, Int64 k) p.

(** [a / n] in float64; a division by zero gives inf or nan. *)
Definition float_divide (a : num) (n : Z) : num :=
  match to_float a with
  | Float64 x =>
      if (n =? 0)%Z then
        if is_zero x then NaN else Inf (is_negative x)
      else round64 (x / inject_Z n)
  | Inf s => Inf (xorb s (n <? 0)%Z)
  | _ => NaN
  end.

(** [p / n] for a Python int [n]: always in float64. *)
Definition np_true_divide (p : point) (n : Z) : point :=
  (float_divide (fst p) n, float_divide (snd p) n).

(** What [int] raises on an infinity and on nan. *)
Definition overflow_error : exn :=
  Exn OtherException ["cannot convert float infinity to integer"%string].
Definition value_error : exn :=
  Exn OtherException ["cannot convert float NaN to integer"%string].

(** [int(a)] *)
Definition np_int (a : num) : exn + Z :=
  match a with
  | Int64 z => inr z
  | Float64 q => inr (py_int q)
  | Inf _ => inl overflow_error
  | NaN => inl value_error
  end.

(** *** The path *)

(** The random generator: [random_rectangle_point] of
    [module.base.utils] draws a pair of numbers from a rectangle and
    advances the generator state. *)
Variable G : Type.
Variable random_rectangle_point : area -> G -> point * G.

Definition interpolate (p1 p2 : point) (n index : nat) : point :=
  np_true_divide
    (np_add (np_scale (Z.of_nat (n - index)) p1) (np_scale (Z.of_nat index) p2))
    (Z.of_nat n).

Fixpoint line_points (p1 p2 : point) (n : nat) (indexes : list nat)
  (random_range : area) (g : G) : list point * G :=
  match indexes with
  | [] => ([], g)
  | index :: rest =>
      let '(r, g1) := random_rectangle_point random_range g in
      let '(pts, g2) := line_points p1 p2 n rest random_range g1 in
      (np_add (interpolate p1 p2 n index) (np_array r) :: pts, g2)
  end.

(** Modelled from the spec: [random_line_segments] of
    [module.base.utils] is missing from the sources.  The spec has it
    return the evenly spaced points on the line from [p1] to [p2], so
    [n + 1] of them with both ends, a single straight line when
    [n = 1]; the call in [drag_uiautomator2] hands it the point jitter
    rectangle as [random_range], from which each point gets a draw.
    The points are computed on the arrays, as the rest of the path is.
    The spec gives no meaning to [n = 0]. *)
Definition random_line_segments (p1 p2 : point) (n : nat)
  (random_range : area) (g : G) : list point * G :=
  line_points p1 p2 n (seq 0 (S n)) random_range g.

(** The list [path] of [drag_uiautomator2] before its coordinates are
    turned into integers (source lines 150 to 157). *)
Definition drag_raw_path (p1 p2 : point) (segments : nat) (shake : point)
  (point_random shake_random : area) (swipe_duration shake_duration : Q)
  (g : G) : list (num * num * Q) * G :=
  let '(r1, g1) := random_rectangle_point point_random g in
  let p1 := np_sub (np_array p1) (np_array r1) in
  let '(r2, g2) := random_rectangle_point point_random g1 in
  let p2 := np_sub (np_array p2) (np_array r2) in
  let '(line, g3) := random_line_segments p1 p2 segments point_random g2 in
  let path := map (fun xy : point => (fst xy, snd xy, swipe_duration)) line in
  let '(r3, g4) := random_rectangle_point shake_random g3 in
  let over := np_add (np_add p2 (np_array shake)) (np_array r3) in
  let '(r4, g5) := random_rectangle_point shake_random g4 in
  let back := np_sub (np_sub p2 (np_array shake)) (np_array r4) in
  (path ++ [ (fst over, snd over, shake_duration);
             (fst back, snd back, shake_duration);
             (fst p2, snd p2, shake_duration) ],
   g5).

(** [(int(x), int(y), d)] *)
Definition to_pixels (w : num * num * Q) : exn + waypoint :=
  let '(x, y, d) := w in
  match np_int x with
  | inl e => inl e
  | inr px =>
      match np_int y with
      | inl e => inl e
      | inr py => inr (px, py, d)
      end
  end.

(** The list comprehension of source line 158: the first [int] that
    raises ends it. *)
Fixpoint all_pixels (raw : list (num * num * Q)) : exn + list waypoint :=
  match raw with
  | [] => inr []
  | w :: rest =>
      match to_pixels w with
      | inl e => inl e
      | inr px =>
          match all_pixels rest with
          | inl e => inl e
          | inr pxs => inr (px :: pxs)
          end
      end
  end.

(** The list handed to [_drag_along] (source line 158), or the error
    raised in making it. *)
Definition drag_path (p1 p2 : point) (segments : nat) (shake : point)
  (point_random shake_random : area) (swipe_duration shake_duration : Q)
  (g : G) : (exn + list waypoint) * G :=
  let '(raw, g') :=
    drag_raw_path p1 p2 segments shake point_random shake_random
      swipe_duration shake_duration g in
  (all_pixels raw, g').

(** An error of [int] leaves [drag_uiautomator2], which is not under
    the decorator, before any call is made on the device. *)
Definition drag_uiautomator2 (p1 p2 : point) (segments : nat) (shake : point)
  (point_random shake_random : area) (swipe_duration shake_duration : Q)
  (g : G) (self : D) : outcome unit * D * list event * G :=
  match
    drag_path p1 p2 segments shake point_random shake_random
      swipe_duration shake_duration g
  with
  | (inr path, g') => (_drag_along path self, g')
  | (inl e, g') => ((Raise e, self, []), g')
  end.

End Uiautomator2.

(** ** The classifier as the specification words it *)

Inductive FaultOutcome : Type :=
| Retryable
| ReconnectAndRetry
| ReinstallAndRetry
| Fatal
| FatalImmediate.

(** The rules of the specification's fault classifier, first match first:
    connection reset, malformed JSON, transport error and runtime error
    (both left to the helper), handshake assertion, anything else.  The
    human-takeover signal is the error taxonomy's Fatal-Immediate. *)
Definition spec_classify (helper : exn -> bool) (e : exn) : FaultOutcome :=
  match exn_cls e with
  | RequestHumanTakeover => FatalImmediate
  | ConnectionResetError => ReconnectAndRetry
  | JSONDecodeError => ReinstallAndRetry
  | AdbError => if helper e then Retryable else Fatal
  | RuntimeError => if helper e then Retryable else Fatal
  | AssertionError => Fatal
  | U2BaseError | OtherException => Retryable
  end.

Definition count_in (p : action -> bool) (acts : list action) : nat :=
  List.length (filter p acts).

(** Calls matching [p] made by the wrapped function, over all its
    invocations. *)
Fixpoint calls_in_invocations (p : action -> bool) (tr : list event) : nat :=
  match tr with
  | [] => 0
  | Invoke acts _ :: rest => count_in p acts + calls_in_invocations p rest
  | Act _ :: rest => calls_in_invocations p rest
  end.

(** [name] occurs in one of the arguments of [e]. *)
Definition carries_label (e : exn) (name : string) : Prop :=
  exists arg pre post, In arg (exn_args e) /\ arg = (pre ++ name ++ post)%string.

(** [z] is an integer nearest to [c]. *)
Definition nearest_int (c : Q) (z : Z) : Prop :=
  forall z' : Z, Qabs (c - inject_Z z) <= Qabs (c - inject_Z z').

(** The branch of [_drag_along] taken at [index] of a path of [length]. *)
Definition touch_phase (length index : nat) : phase :=
  if (index =? 0)%nat then Down
  else if (Z.of_nat index - Z.of_nat length =? -1)%Z then Up
  else Move.

Definition phase_word (ph : phase) : string :=
  match ph with Down => " down" | Move => " move" | Up => " up" end.

(** The calls a whole traversal of one waypoint makes. *)
Definition waypoint_calls (point2str : Z -> Z -> string) (ph : phase)
  (data : waypoint) : list action :=
  let '(x, y, second) := data in
  [Touch ph x y; LogInfo (point2str x y ++ phase_word ph)%string; Sleep second].

Definition is_prefix {T : Type} (l l' : list T) : Prop :=
  exists rest, l' = l ++ rest.

(** Both numbers of [p] are finite and lie in the rectangle. *)
Definition in_area (a : area) (p : point) : Prop :=
  let '(x0, y0, x1, y1) := a in
  exists x y,
    np_value (fst p) = Some x /\ np_value (snd p) = Some y /\
    x0 <= x /\ x <= x1 /\ y0 <= y /\ y <= y1.

Definition zero_area : area := (0, 0, 0, 0).

(** The calls a traversal of [path] makes when no call raises, each
    waypoint under the branch its index takes. *)
Fixpoint path_calls (point2str : Z -> Z -> string) (length index : nat)
  (path : list waypoint) : list action :=
  match path with
  | [] => []
  | data :: rest =>
      waypoint_calls point2str (touch_phase length index) data
        ++ path_calls point2str length (S index) rest
  end.

Definition gesture_calls (point2str : Z -> Z -> string) (path : list waypoint)
  : list action :=
  path_calls point2str (List.length path) 0 path.

(** The device answers every touch of a traversal of [path] that
    starts at [index] in the state [self]. *)
Fixpoint touches_succeed {D : Type} (sleep : Q -> D -> D)
  (u2_touch : phase -> Z -> Z -> D -> option exn * D) (length index : nat)
  (path : list waypoint) (self : D) : Prop :=
  match path with
  | [] => True
  | (x, y, second) :: rest =>
      exists self1,
        u2_touch (touch_phase length index) x y self = (None, self1) /\
        touches_succeed sleep u2_touch length (S index) rest (sleep second self1)
  end.

(** The device answers the touches of the first [k] waypoints of such a
    traversal and fails the next one with [e], which leaves it in
    [self']. *)
Fixpoint touch_fails {D : Type} (sleep : Q -> D -> D)
  (u2_touch : phase -> Z -> Z -> D -> option exn * D) (length index : nat)
  (path : list waypoint) (self : D) (k : nat) (e : exn) (self' : D) : Prop :=
  match path with
  | [] => False
  | (x, y, second) :: rest =>
      match k with
      | O => u2_touch (touch_phase length index) x y self = (Some e, self')
      | S k' =>
          exists self1,
            u2_touch (touch_phase length index) x y self = (None, self1) /\
            touch_fails sleep u2_touch length (S index) rest
              (sleep second self1) k' e self'
      end
  end.

(** The calls of a traversal that is stopped by the touch of waypoint
    [k]: all calls of the waypoints before it, then that touch. *)
Definition failed_calls (point2str : Z -> Z -> string) (path : list waypoint)
  (k : nat) : list action :=
  path_calls point2str (List.length path) 0 (firstn k path)
    ++ match nth_error path k with
       | Some (x, y, _) => [Touch (touch_phase (List.length path) k) x y]
       | None => []
       end.

(** [ev], if an invocation, is a run of [func] from some device state. *)
Definition invoked_by {D A : Type} (func : M D A) (ev : event) : Prop :=
  match ev with
  | Invoke acts r =>
      exists s, snd (func s) = acts /\
                r = match fst (fst (func s)) with
                    | Return _ => None
                    | Raise e => Some e
                    end
  | Act _ => True
  end.

(** The error the agent answers for a missing package (source line 175). *)
Definition package_not_found (package_name : string) : exn :=
  Exn U2BaseError
    [("package " ++ dquote ++ package_name ++ dquote ++ " not found")%string].

(** [z] is [c] with its fraction dropped: between zero and [c], less
    than one away from [c]. *)
Definition truncation_of (c : Q) (z : Z) : Prop :=
  Qabs (inject_Z z) <= Qabs c /\ Qabs (c - inject_Z z) < 1.

(** The coordinate [a] is finite, and [z] is its value with the
    fraction dropped. *)
Definition coordinate_truncated (a : num) (z : Z) : Prop :=
  exists c, np_value a = Some c /\ truncation_of c z.

(** The coordinate [a] is finite, and [z] is an integer nearest to its
    value. *)
Definition coordinate_nearest (a : num) (z : Z) : Prop :=
  exists c, np_value a = Some c /\ nearest_int c z.

(** Every pixel coordinate is an integer nearest to the coordinate it
    was made from. *)
Definition rounds_to_nearest (raw : list (num * num * Q))
  (path : list waypoint) : Prop :=
  Forall2 (fun r w =>
             coordinate_nearest (fst (fst r)) (fst (fst w)) /\
             coordinate_nearest (snd (fst r)) (snd (fst w)))
    raw path.

(** The number [a] stands for the integer [z]. *)
Definition holds (a : num) (z : Z) : Prop :=
  match a with
  | Int64 x => x = z
  | Float64 q => q == inject_Z z
  | Inf _ | NaN => False
  end.

Definition pholds (p : point) (x y : Z) : Prop :=
  holds (fst p) x /\ holds (snd p) y.

(** [ff] is the float64 operation that rounds [fq]. *)
Definition rounds (ff : num -> num -> num) (fq : Q -> Q -> Q) : Prop :=
  forall a b p q,
    to_float a = Float64 p -> to_float b = Float64 q ->
    ff a b = round64 (fq p q).

(** Integers this small are doubles, and int64 values. *)
Definition small (z : Z) : Prop := (Z.abs z <= 2 ^ 52)%Z.

(** ** A scripted device, to run the definitions on *)

Module Demo.

(** The device answers its agent calls from a tape: [Some e] makes the
  call raise [e]; an empty tape lets every call succeed. *)
Definition device : Type := list (option exn).

Definition answer (self : device) : option exn * device :=
  match self with
  | [] => (None, [])
  | r :: rest => (r, rest)
  end.

Definition serial (_ : device) : string := "127.0.0.1:5555".
Definition adb_connect (_ : string) (self : device) : device := self.
Definition install_uiautomator2 (self : device) : device := self.
Definition sleep (_ : Q) (self : device) : device := self.
Definition handle_adb_error (e : exn) : bool :=
  match exn_args e with [] => false | _ :: _ => true end.
Definition point2str (_ _ : Z) : string := "(x, y)".
Definition u2_touch (_ : phase) (_ _ : Z) (self : device) := answer self.
Definition u2_app_start (_ : string) (self : device) := answer self.

Definition unknown : exn := Exn OtherException ["truncated image"%string].
Definition reset : exn := Exn ConnectionResetError ["Connection reset by peer"%string].
Definition takeover : exn := Exn RequestHumanTakeover ["upstream"%string].
(** A body that makes one agent call and passes on its answer. *)
Definition click (self : device) : outcome unit * device * list action :=
  match answer self with
  | (None, self1) => (Return tt, self1, [])
  | (Some e, self1) => (Raise e, self1, [])
  end.

(** A body that fails on every invocation with an unclassified error. *)
Definition always_unknown (self : device) : outcome unit * device * list action :=
  (Raise unknown, self, []).

Definition retry (tries : nat) (name : string)
  (func : device -> outcome unit * device * list action) (self : device) :=
  retry tries 3 serial adb_connect install_uiautomator2 sleep
    handle_adb_error name func self.

(** A generator that replays a tape of draws; a draw that is not in
  the rectangle asked for, or a missing one, is replaced by the whole
  numbers next above the rectangle's first corner. *)
Definition inside (a : area) (p : point) : bool :=
  let '(x0, y0, x1, y1) := a in
  match np_value (fst p), np_value (snd p) with
  | Some x, Some y =>
      Qle_bool x0 x && Qle_bool x x1 && Qle_bool y0 y && Qle_bool y y1
  | _, _ => false
  end.

Definition tape_point (a : area) (g : list point) : point * list point :=
  let '(x0, y0, x1, y1) := a in
  let corner := (Int64 (Qceiling x0), Int64 (Qceiling y0)) in
  match g with
  | [] => (corner, [])
  | p :: rest => (if inside a p then p else corner, rest)
  end.

(** The path of the docstring of [_drag_along]. *)
Definition example_path : list waypoint :=
  [ (403%Z, 421%Z, 1 # 5); (821%Z, 326%Z, 1 # 10); (821%Z, 316%Z, 1 # 10);
  (821%Z, 336%Z, 1 # 10); (821%Z, 326%Z, 0) ].

End Demo.

(** ** [app_current_uiautomator2] *)

(** The answer of [self.u2.app_current()]: a dict from field names to
    values. *)
Definition dict : Type := list (string * string).

(** [result[key]]: the value stored under [key], if any. *)
Fixpoint dict_get (key : string) (result : dict) : option string :=
  match result with
  | [] => None
  | (k, v) :: rest => if String.eqb k key then Some v else dict_get key rest
  end.

(** [KeyError(key)], an [Exception] none of the clauses names. *)
Definition key_error (key : string) : exn := Exn OtherException [key].

Section AppCurrent.

Variable D : Type.
Variable RETRY_TRIES : nat.
Variable RETRY_DELAY : Q.
Variable serial : D -> string.
Variable adb_connect : string -> D -> D.
Variable install_uiautomator2 : D -> D.
Variable sleep : Q -> D -> D.
Variable handle_adb_error : exn -> bool.
(** [self.u2.app_current()]: raises, or answers with a dict. *)
Variable u2_app_current : D -> (exn + dict) * D.

(** The function under the decorator.  The list of calls has no entry
    for the app-current request, so the body reports none; the wrapper
    records the invocation itself. *)
Definition app_current_func : M D string :=
  fun self =>
    match u2_app_current self with
    | (inl e, self1) => (Raise e, self1, [])
    | (inr result, self1) =>
        match dict_get "package" result with
        | Some package => (Return package, self1, [])
        | None => (Raise (key_error "package"), self1, [])
        end
    end.

Definition app_current_uiautomator2 (self : D)
  : outcome string * D * list event :=
  retry RETRY_TRIES RETRY_DELAY serial adb_connect install_uiautomator2 sleep
    handle_adb_error "app_current_uiautomator2" app_current_func self.

End AppCurrent.

(** ** Further counts over traces *)

Definition is_handle_adb_error (a : action) : bool :=
  match a with HandleAdbError _ => true | _ => false end.
Definition is_possible_reasons (a : action) : bool :=
  match a with PossibleReasons _ => true | _ => false end.
Definition is_touch (a : action) : bool :=
  match a with Touch _ _ _ => true | _ => false end.
Definition is_touch_down (a : action) : bool :=
  match a with Touch Down _ _ => true | _ => false end.
Definition is_touch_move (a : action) : bool :=
  match a with Touch Move _ _ => true | _ => false end.

Definition is_connection_reset (c : exn_class) : bool :=
  match c with ConnectionResetError => true | _ => false end.
Definition is_json_decode (c : exn_class) : bool :=
  match c with JSONDecodeError => true | _ => false end.
Definition is_adb_or_runtime (c : exn_class) : bool :=
  match c with AdbError | RuntimeError => true | _ => false end.
Definition is_assertion (c : exn_class) : bool :=
  match c with AssertionError => true | _ => false end.

(** The invocations in [tr] that raised an exception of a class in [p]. *)
Definition raised_count (p : exn_class -> bool) (tr : list event) : nat :=
  List.length
    (filter (fun ev => match ev with
                       | Invoke _ (Some e) => p (exn_cls e)
                       | _ => false
                       end) tr).

(** The seconds the wrapper itself slept. *)
Fixpoint slept (tr : list event) : Q :=
  match tr with
  | [] => 0
  | Act (Sleep second) :: rest => second + slept rest
  | _ :: rest => slept rest
  end.

(** The seconds slept among the calls of one invocation. *)
Fixpoint slept_in (acts : list action) : Q :=
  match acts with
  | [] => 0
  | Sleep second :: rest => second + slept_in rest
  | _ :: rest => slept_in rest
  end.

(** The hold times of a path, added up. *)
Fixpoint hold_time (path : list waypoint) : Q :=
  match path with
  | [] => 0
  | (_, _, second) :: rest => second + hold_time rest
  end.

(** [ev] is no invocation that returned. *)
Definition not_returned (ev : event) : Prop :=
  forall acts, ev <> Invoke acts None.

(** ** Scripted answers of the app-current request *)

Module Script.

(** The device answers the app-current request from a tape; past its end
    the answer is an empty dict. *)
Definition device : Type := list (exn + dict).

Definition u2_app_current (self : device) : (exn + dict) * device :=
  match self with
  | [] => (inr [], [])
  | r :: rest => (r, rest)
  end.

Definition serial (_ : device) : string := "127.0.0.1:5555".
Definition adb_connect (_ : string) (self : device) : device := self.
Definition install_uiautomator2 (self : device) : device := self.
Definition sleep (_ : Q) (self : device) : device := self.
Definition handle_adb_error (_ : exn) : bool := false.

Definition launcher : dict := [("activity", ".Launcher")]%string.
Definition game : dict :=
  [("package", "com.bilibili.azurlane"); ("activity", ".MainActivity")]%string.

(** A device whose answer never has the [package] field. *)
Definition no_package (self : unit) : (exn + dict) * unit :=
  (inr launcher, self).

Definition handshake : exn := Exn AssertionError ["handshake"%string].

End Script.

(** * Properties *)

(** ** Counting in traces *)

Lemma invocations_app (tr1 tr2 : list event) :
  invocations (tr1 ++ tr2) = (invocations tr1 + invocations tr2)%nat.
Proof.
  unfold invocations. now rewrite filter_app, length_app.
Qed.

Lemma invocations_acts (rec : list action) :
  invocations (map Act rec) = 0%nat.
Proof.
  unfold invocations. induction rec as [|a rec IH]; simpl; auto.
Qed.

Lemma invocations_invoke (acts : list action) (r : option exn) (tr : list event) :
  invocations (Invoke acts r :: tr) = S (invocations tr).
Proof. reflexivity. Qed.

Lemma invocations_act (a : action) (tr : list event) :
  invocations (Act a :: tr) = invocations tr.
Proof. reflexivity. Qed.

Lemma invocations_nil : invocations [] = 0%nat.
Proof. reflexivity. Qed.

Lemma count_act_invoke (p : action -> bool) (acts : list action)
  (r : option exn) (tr : list event) :
  count_act p (Invoke acts r :: tr) = count_act p tr.
Proof. reflexivity. Qed.

Lemma count_act_act (p : action -> bool) (a : action) (tr : list event) :
  count_act p (Act a :: tr) = ((if p a then 1 else 0) + count_act p tr)%nat.
Proof. unfold count_act. simpl. destruct (p a); reflexivity. Qed.

Lemma count_act_nil (p : action -> bool) : count_act p [] = 0%nat.
Proof. reflexivity. Qed.

Lemma count_act_app (p : action -> bool) (tr1 tr2 : list event) :
  count_act p (tr1 ++ tr2) = (count_act p tr1 + count_act p tr2)%nat.
Proof.
  unfold count_act. now rewrite filter_app, length_app.
Qed.

Lemma count_act_acts (p : action -> bool) (rec : list action) :
  count_act p (map Act rec) = count_in p rec.
Proof.
  unfold count_act, count_in.
  induction rec as [|a rec IH]; simpl; auto.
  destruct (p a); simpl; auto.
Qed.

Lemma calls_in_invocations_app (p : action -> bool) (tr1 tr2 : list event) :
  calls_in_invocations p (tr1 ++ tr2)
  = (calls_in_invocations p tr1 + calls_in_invocations p tr2)%nat.
Proof.
  induction tr1 as [|[acts r|a] tr1 IH]; simpl; auto.
  rewrite IH. lia.
Qed.

Lemma calls_in_invocations_acts (p : action -> bool) (rec : list action) :
  calls_in_invocations p (map Act rec) = 0%nat.
Proof.
  induction rec as [|a rec IH]; simpl; auto.
Qed.

(** An invocation found in a trace that starts with wrapper calls lies
    behind them. *)
Lemma invoke_behind_acts (rec : list action) :
  forall (pre post tr : list event) acts r,
    pre ++ Invoke acts r :: post = map Act rec ++ tr ->
    exists pre', pre = map Act rec ++ pre' /\ pre' ++ Invoke acts r :: post = tr.
Proof.
  induction rec as [|a rec IH]; simpl; intros pre post tr acts r H.
  - exists pre. split; auto.
  - destruct pre as [|ev pre]; simpl in H.
    + discriminate.
    + injection H as -> H.
      destruct (IH _ _ _ _ _ H) as (pre' & -> & Htr).
      exists pre'. split; auto.
Qed.

Section Dispatcher.

Variable D : Type.
Variable RETRY_TRIES : nat.
Variable RETRY_DELAY : Q.
Variable serial : D -> string.
Variable adb_connect : string -> D -> D.
Variable install_uiautomator2 : D -> D.
Variable sleep : Q -> D -> D.
Variable handle_adb_error : exn -> bool.

Local Abbreviation dispatch :=
    (except_dispatch serial adb_connect install_uiautomator2 handle_adb_error).
Local Abbreviation loop :=
    (retry_loop RETRY_DELAY serial adb_connect install_uiautomator2 sleep
       handle_adb_error).
Local Abbreviation wrapper :=
    (retry RETRY_TRIES RETRY_DELAY serial adb_connect install_uiautomator2 sleep
       handle_adb_error).
Local Abbreviation classify := (spec_classify handle_adb_error).

(** The clause that runs, by the class of the exception. *)
Lemma except_dispatch_by_class (e : exn) (self : D) :
    dispatch e self =
    match exn_cls e with
    | RequestHumanTakeover => on_human_takeover e self
    | ConnectionResetError => on_connection_reset serial adb_connect e self
    | JSONDecodeError => on_json_decode install_uiautomator2 e self
    | AdbError | RuntimeError => on_adb_error handle_adb_error e self
    | AssertionError => on_assertion e self
    | U2BaseError | OtherException => on_unknown e self
    end.
Proof.
    destruct e as [c args]. destruct c; reflexivity.
Qed.

(** What one clause run amounts to, by the specification's outcome. *)
Lemma except_dispatch_outcome (e : exn) (self : D) :
    exists rec,
      count_in is_critical rec = 0%nat /\
      match classify e with
      | Retryable =>
          dispatch e self = (Continue, self, rec) /\
          count_in is_reconnect rec = 0%nat /\ count_in is_reinstall rec = 0%nat
      | ReconnectAndRetry =>
          dispatch e self = (Continue, adb_connect (serial self) self, rec) /\
          count_in is_reconnect rec = 1%nat /\ count_in is_reinstall rec = 0%nat
      | ReinstallAndRetry =>
          dispatch e self = (Continue, install_uiautomator2 self, rec) /\
          count_in is_reconnect rec = 0%nat /\ count_in is_reinstall rec = 1%nat
      | Fatal =>
          dispatch e self = (Break, self, rec) /\
          count_in is_reconnect rec = 0%nat /\ count_in is_reinstall rec = 0%nat
      | FatalImmediate =>
          dispatch e self = (Break, self, rec) /\ rec = []
      end.
Proof.
    rewrite except_dispatch_by_class. unfold spec_classify.
    destruct e as [c args]; destruct c; simpl;
      unfold on_adb_error;
      try destruct (handle_adb_error _); simpl;
      eexists; (split; [|split; [reflexivity|]]); try split; reflexivity.
Qed.

Lemma except_dispatch_caught (e : exn) (self : D) :
    fst (fst (dispatch e self)) <> Propagate.
Proof.
    rewrite except_dispatch_by_class.
    destruct e as [c args]; destruct c; simpl;
      unfold on_adb_error; try destruct (handle_adb_error _); simpl; discriminate.
Qed.

Lemma except_dispatch_quiet (e : exn) (self : D) :
    count_in is_critical (snd (dispatch e self)) = 0%nat.
Proof.
    rewrite except_dispatch_by_class.
    destruct e as [c args]; destruct c; reflexivity.
Qed.

Section Wrapped.

Variable A : Type.
Variable func : M D A.

    (** One round of the loop whose attempt raised. *)
Lemma retry_loop_raise (n : nat) (self self1 self2 : D) (e : exn)
      (acts rec : list action) (fl : flow) :
      func self = (Raise e, self1, acts) ->
      dispatch e self1 = (fl, self2, rec) ->
      loop func (S n) self =
      match fl with
      | Break => (Broke, self2, Invoke acts (Some e) :: map Act rec)
      | Propagate => (Uncaught e, self2, Invoke acts (Some e) :: map Act rec)
      | Continue =>
          let r := loop func n (sleep RETRY_DELAY self2) in
          (fst (fst r), snd (fst r),
           Invoke acts (Some e)
             :: map Act rec ++ Act (Sleep RETRY_DELAY) :: snd r)
      end.
Proof.
      intros Hf Hd. simpl. rewrite Hf, Hd.
      destruct fl; try reflexivity.
      destruct (retry_loop _ _ _ _ _ _ func n _) as [[r s] tr]. reflexivity.
Qed.

Lemma retry_loop_return (n : nat) (self self1 : D) (a : A)
      (acts : list action) :
      func self = (Return a, self1, acts) ->
      loop func (S n) self = (Returned a, self1, [Invoke acts None]).
Proof.
      intros Hf. simpl. now rewrite Hf.
Qed.

    (** The wrapper's own calls in the loop: never the critical log line. *)
Lemma retry_loop_quiet (n : nat) :
      forall self, count_act is_critical (snd (loop func n self)) = 0%nat.
Proof.
      induction n as [|n IH]; intros self; [reflexivity|].
      destruct (func self) as [[[a|e] self1] acts] eqn:Hf.
      - rewrite (retry_loop_return n Hf). reflexivity.
      - destruct (dispatch e self1) as [[fl self2] rec] eqn:Hd.
        pose proof (except_dispatch_quiet e self1) as Hq. rewrite Hd in Hq.
        simpl in Hq.
        rewrite (retry_loop_raise n Hf Hd).
        destruct fl; simpl snd; rewrite count_act_invoke;
          rewrite ?count_act_app, count_act_acts, Hq; try reflexivity.
        rewrite count_act_act, IH. reflexivity.
Qed.

Lemma retry_loop_caught (n : nat) :
      forall self e, fst (fst (loop func n self)) <> Uncaught e.
Proof.
      induction n as [|n IH]; intros self e0; [discriminate|].
      destruct (func self) as [[[a|e] self1] acts] eqn:Hf.
      - rewrite (retry_loop_return n Hf). discriminate.
      - destruct (dispatch e self1) as [[fl self2] rec] eqn:Hd.
        pose proof (except_dispatch_caught e self1) as Hc. rewrite Hd in Hc.
        rewrite (retry_loop_raise n Hf Hd).
        destruct fl; simpl; try discriminate; [apply IH | now elim Hc].
Qed.

Lemma retry_loop_bound (n : nat) :
      forall self, (invocations (snd (loop func n self)) <= n)%nat.
Proof.
      induction n as [|n IH]; intros self; [reflexivity|].
      destruct (func self) as [[[a|e] self1] acts] eqn:Hf.
      - rewrite (retry_loop_return n Hf). simpl snd.
        rewrite invocations_invoke, invocations_nil. lia.
      - destruct (dispatch e self1) as [[fl self2] rec] eqn:Hd.
        rewrite (retry_loop_raise n Hf Hd).
        destruct fl; simpl snd; rewrite invocations_invoke;
          rewrite ?invocations_app, invocations_acts; try lia.
        rewrite invocations_act.
        specialize (IH (sleep RETRY_DELAY self2)). lia.
Qed.

Lemma retry_of_loop (name : string) (self : D) :
  wrapper name func self =
  let r := loop func RETRY_TRIES self in
  match fst (fst r) with
  | Returned a => (Return a, snd (fst r), snd r)
  | Uncaught e => (Raise e, snd (fst r), snd r)
  | Broke | Exhausted =>
      (Raise (raise_bare RequestHumanTakeover), snd (fst r),
       snd r ++ [Act (LogCritical (retry_failed_message name))])
  end.
Proof.
  unfold retry.
  destruct (retry_loop _ _ _ _ _ _ func RETRY_TRIES self) as [[[a| | |e] s] tr];
    reflexivity.
Qed.

(** A body that always fails with a plainly retryable cause uses up the
    whole loop, and no recovery call is made on the way. *)
Lemma retry_loop_all_retryable :
  (forall self, exists e self1 acts,
      func self = (Raise e, self1, acts) /\ classify e = Retryable) ->
  forall n self,
    fst (fst (loop func n self)) = Exhausted /\
    invocations (snd (loop func n self)) = n /\
    count_act is_reconnect (snd (loop func n self)) = 0%nat /\
    count_act is_reinstall (snd (loop func n self)) = 0%nat.
Proof.
  intros Hfail. induction n as [|n IH]; intros self.
  - repeat split.
  - destruct (Hfail self) as (e & self1 & acts & Hf & Hc).
    destruct (except_dispatch_outcome e self1) as (rec & _ & Ho).
    rewrite Hc in Ho. destruct Ho as (Hd & Hrc & Hri).
    rewrite (retry_loop_raise n Hf Hd). cbv zeta.
    destruct (IH (sleep RETRY_DELAY self1)) as (Hex & Hinv & Hc1 & Hc2).
    simpl fst. simpl snd.
    rewrite invocations_invoke, invocations_app, invocations_acts,
      invocations_act, Hinv.
    rewrite !count_act_invoke, !count_act_app, !count_act_acts,
      !count_act_act, Hrc, Hri, Hc1, Hc2.
    repeat split; auto.
Qed.

(** An attempt that raised the human-takeover signal is the last thing
    the loop did. *)
Lemma retry_loop_takeover_last (n : nat) :
  forall self pre acts e post,
    snd (loop func n self) = pre ++ Invoke acts (Some e) :: post ->
    exn_cls e = RequestHumanTakeover ->
    post = [] /\ fst (fst (loop func n self)) = Broke /\
    (S (invocations pre) <= n)%nat.
Proof.
  induction n as [|n IH]; intros self pre acts e post Htr He.
  - simpl in Htr. destruct pre; discriminate.
  - destruct (func self) as [[[a|e0] self1] acts0] eqn:Hf.
    + rewrite (retry_loop_return n Hf) in Htr. simpl in Htr.
      destruct pre as [|ev [|ev' pre]]; discriminate.
    + destruct (dispatch e0 self1) as [[fl self2] rec] eqn:Hd.
      rewrite (retry_loop_raise n Hf Hd) in *.
      destruct pre as [|ev pre].
      * (* the first attempt is the one that raised the signal *)
        assert (e0 = e) as -> by (destruct fl; simpl in Htr; congruence).
        destruct (except_dispatch_outcome e self1) as (rec' & _ & Ho).
        unfold spec_classify in Ho. rewrite He in Ho.
        destruct Ho as (Hd' & ->). rewrite Hd in Hd'.
        injection Hd' as -> -> ->. simpl in Htr. simpl.
        repeat split; [congruence | rewrite invocations_nil; lia].
      * (* it lies in a later round *)
        assert (fl = Continue /\
                  pre ++ Invoke acts (Some e) :: post
                  = map Act rec ++ Act (Sleep RETRY_DELAY)
                      :: snd (loop func n (sleep RETRY_DELAY self2)))
          as (-> & Htl).
        { destruct fl; simpl in Htr; injection Htr as _ Htr; symmetry in Htr.
          - split; [reflexivity | exact Htr].
          - exfalso. rewrite <- (app_nil_r (map Act rec)) in Htr.
            destruct (@invoke_behind_acts _ _ _ _ _ _ Htr) as (pre' & _ & Hnil).
            destruct pre'; discriminate.
          - exfalso. rewrite <- (app_nil_r (map Act rec)) in Htr.
            destruct (@invoke_behind_acts _ _ _ _ _ _ Htr) as (pre' & _ & Hnil).
            destruct pre'; discriminate. }
        simpl in Htr. injection Htr as <- _.
        destruct (@invoke_behind_acts _ _ _ _ _ _ Htl) as (pre' & -> & Htl').
        destruct pre' as [|ev' pre']; simpl in Htl'; [discriminate|].
        injection Htl' as -> Htl'.
        destruct (IH _ _ _ _ _ (eq_sym Htl') He) as (-> & Hb & Hle).
        cbv zeta. simpl fst. split; [reflexivity|]. split; [exact Hb|].
        rewrite invocations_invoke, invocations_app, invocations_acts,
          invocations_act.
        simpl. lia.
Qed.

(** C1: for every retry bound [RETRY_TRIES], the wrapper never invokes
    the wrapped function more than [RETRY_TRIES] times; and when the
    function fails on every invocation with a cause classified as
    plainly retryable, it is invoked exactly [RETRY_TRIES] times, after
    which the wrapper raises [RequestHumanTakeover], once, with one
    critical log line and no recovery call. *)
Theorem retry_exhausts_after_retry_tries (name : string) :
  (forall self, (invocations (snd (wrapper name func self)) <= RETRY_TRIES)%nat) /\
  ((forall self, exists e self1 acts,
       func self = (Raise e, self1, acts) /\ classify e = Retryable) ->
   forall self,
     invocations (snd (wrapper name func self)) = RETRY_TRIES /\
     fst (fst (wrapper name func self)) = Raise (raise_bare RequestHumanTakeover) /\
     count_act is_critical (snd (wrapper name func self)) = 1%nat /\
     count_act is_reconnect (snd (wrapper name func self)) = 0%nat /\
     count_act is_reinstall (snd (wrapper name func self)) = 0%nat).
Proof.
  split.
  - intros self. rewrite retry_of_loop. cbv zeta.
    pose proof (retry_loop_bound RETRY_TRIES self) as Hb.
    destruct (fst (fst (loop func RETRY_TRIES self))); simpl snd;
      rewrite ?invocations_app; auto;
      change (invocations [Act _]) with 0%nat; lia.
  - intros Hfail self. rewrite retry_of_loop. cbv zeta.
    destruct (retry_loop_all_retryable Hfail RETRY_TRIES self)
      as (Hex & Hinv & Hc1 & Hc2).
    pose proof (retry_loop_quiet RETRY_TRIES self) as Hq.
    rewrite Hex. simpl fst. simpl snd.
    rewrite invocations_app, !count_act_app, Hinv, Hq, Hc1, Hc2.
    rewrite invocations_act, invocations_nil.
    repeat split; auto.
Qed.

(** C2: a failed attempt is handled by the first matching rule of the
    classifier: connection reset makes exactly one reconnect call, a
    malformed JSON answer exactly one reinstall call, each before the
    delay and the next round; a transport or runtime error is retried or
    fatal as the helper decides; a handshake assertion is fatal; any
    other error is plainly retried; and neither recovery call is made
    unless the rule asks for it. *)
Theorem retry_round_follows_classifier (n : nat) (self self1 : D) (e : exn)
  (acts : list action) :
  func self = (Raise e, self1, acts) ->
  exists rec self2 rest,
    snd (loop func (S n) self) = Invoke acts (Some e) :: map Act rec ++ rest /\
    let next := loop func n (sleep RETRY_DELAY self2) in
    let goes_on :=
      rest = Act (Sleep RETRY_DELAY) :: snd next /\
      fst (loop func (S n) self) = fst next in
    let stops :=
      rest = [] /\ fst (loop func (S n) self) = (Broke, self2) in
    match classify e with
    | ReconnectAndRetry =>
        count_in is_reconnect rec = 1%nat /\ count_in is_reinstall rec = 0%nat /\
        self2 = adb_connect (serial self1) self1 /\ goes_on
    | ReinstallAndRetry =>
        count_in is_reconnect rec = 0%nat /\ count_in is_reinstall rec = 1%nat /\
        self2 = install_uiautomator2 self1 /\ goes_on
    | Retryable =>
        count_in is_reconnect rec = 0%nat /\ count_in is_reinstall rec = 0%nat /\
        self2 = self1 /\ goes_on
    | Fatal | FatalImmediate =>
        count_in is_reconnect rec = 0%nat /\ count_in is_reinstall rec = 0%nat /\
        self2 = self1 /\ stops
    end.
Proof.
  intros Hf.
  destruct (except_dispatch_outcome e self1) as (rec & _ & Ho).
  destruct (classify e);
    [ destruct Ho as (Hd & Hrc & Hri) ..| destruct Ho as (Hd & ->) ];
    rewrite (retry_loop_raise n Hf Hd); cbv zeta.
  - exists rec, self1, (Act (Sleep RETRY_DELAY)
                          :: snd (loop func n (sleep RETRY_DELAY self1))).
    repeat split; auto;
      simpl; now destruct (retry_loop _ _ _ _ _ _ func n _) as [[r s] tr].
  - exists rec, (adb_connect (serial self1) self1),
      (Act (Sleep RETRY_DELAY)
         :: snd (loop func n
                   (sleep RETRY_DELAY (adb_connect (serial self1) self1)))).
    repeat split; auto;
      simpl; now destruct (retry_loop _ _ _ _ _ _ func n _) as [[r s] tr].
  - exists rec, (install_uiautomator2 self1),
      (Act (Sleep RETRY_DELAY)
         :: snd (loop func n (sleep RETRY_DELAY (install_uiautomator2 self1)))).
    repeat split; auto;
      simpl; now destruct (retry_loop _ _ _ _ _ _ func n _) as [[r s] tr].
  - exists rec, self1, []. rewrite app_nil_r. repeat split; auto.
  - exists [], self1, []. repeat split; auto.
Qed.

(** C3: if an attempt raises the human-takeover signal, the wrapper does
    nothing after it but log the critical line and raise
    [RequestHumanTakeover]: with [k - 1] invocations before it, the
    total is [k], [k] is within [RETRY_TRIES], and no delay is slept
    after that attempt. *)
Theorem retry_stops_on_human_takeover (name : string) (self : D)
  (pre post : list event) (acts : list action) (e : exn) :
  snd (wrapper name func self) = pre ++ Invoke acts (Some e) :: post ->
  exn_cls e = RequestHumanTakeover ->
  post = [Act (LogCritical (retry_failed_message name))] /\
  count_act is_sleep post = 0%nat /\
  fst (fst (wrapper name func self)) = Raise (raise_bare RequestHumanTakeover) /\
  invocations (snd (wrapper name func self)) = S (invocations pre) /\
  (S (invocations pre) <= RETRY_TRIES)%nat.
Proof.
  intros Htr He.
  assert (Hloop :
    exists post', snd (loop func RETRY_TRIES self)
                  = pre ++ Invoke acts (Some e) :: post' /\
                  (fst (fst (loop func RETRY_TRIES self)) = Broke ->
                   post = post' ++ [Act (LogCritical (retry_failed_message name))])).
  { rewrite retry_of_loop in Htr. cbv zeta in Htr.
    pose proof (retry_loop_caught RETRY_TRIES self) as Hc.
    destruct (fst (fst (loop func RETRY_TRIES self))) as [a| | |e0] eqn:Hx;
      simpl snd in Htr.
    - exists post. split; [exact Htr | discriminate].
    - destruct (exists_last (l := Invoke acts (Some e) :: post))
        as (front & ev & Hlast); [discriminate|].
      rewrite Hlast, app_assoc in Htr. apply app_inj_tail in Htr.
      destruct Htr as (Htr & <-).
      destruct front as [|ev0 front]; simpl in Hlast; [discriminate|].
      injection Hlast as <- ->.
      exists front. split; [exact Htr | reflexivity].
    - destruct (exists_last (l := Invoke acts (Some e) :: post))
        as (front & ev & Hlast); [discriminate|].
      rewrite Hlast, app_assoc in Htr. apply app_inj_tail in Htr.
      destruct Htr as (Htr & <-).
      destruct front as [|ev0 front]; simpl in Hlast; [discriminate|].
      injection Hlast as <- ->.
      exists front. split; [exact Htr | discriminate].
    - now elim (Hc e0). }
  destruct Hloop as (post' & Hl & Hpost).
  destruct (@retry_loop_takeover_last _ _ _ _ _ _ Hl He) as (-> & Hb & Hle).
  specialize (Hpost Hb). simpl in Hpost. subst post.
  rewrite retry_of_loop. cbv zeta. rewrite Hb, Hl. simpl fst. simpl snd.
  repeat split; auto.
  rewrite !invocations_app, invocations_invoke, invocations_act,
    invocations_nil.
  lia.
Qed.

(** C4, as the code has it: whenever the wrapper raises, what it raises
    is the bare [RequestHumanTakeover], built with no argument, so the
    label of the failed action is not in the signal; the label is in the
    one critical log line [Retry <name>() failed], which is the last
    thing the wrapper does before it raises. *)
Theorem retry_escalation_is_bare_signal (name : string) (self : D) (e : exn) :
  fst (fst (wrapper name func self)) = Raise e ->
  e = raise_bare RequestHumanTakeover /\
  exn_args e = [] /\
  (exists tr,
      snd (wrapper name func self)
      = tr ++ [Act (LogCritical ("Retry " ++ name ++ "() failed")%string)]) /\
  count_act is_critical (snd (wrapper name func self)) = 1%nat.
Proof.
  rewrite retry_of_loop. cbv zeta.
  pose proof (retry_loop_caught RETRY_TRIES self) as Hc.
  pose proof (retry_loop_quiet RETRY_TRIES self) as Hq.
  destruct (fst (fst (loop func RETRY_TRIES self))) as [a| | |e0];
    simpl fst; simpl snd; intros H;
    try discriminate; try (now elim (Hc e0));
    injection H as <-;
    (repeat split; [eexists; reflexivity|]);
    rewrite count_act_app, Hq; reflexivity.
Qed.

(** Every invocation in the trace is a run of [func]. *)
Lemma retry_loop_invocations (n : nat) :
  forall self, Forall (invoked_by func) (snd (loop func n self)).
Proof.
  induction n as [|n IH]; intros self; [constructor|].
  destruct (func self) as [[[a|e] self1] acts] eqn:Hf.
  - rewrite (retry_loop_return n Hf). simpl snd.
    repeat constructor. exists self. now rewrite Hf.
  - destruct (dispatch e self1) as [[fl self2] rec] eqn:Hd.
    rewrite (retry_loop_raise n Hf Hd).
    assert (Hacts : Forall (invoked_by func) (map Act rec)).
    { apply Forall_forall. intros ev Hin. apply in_map_iff in Hin.
      destruct Hin as (a & <- & _). exact I. }
    assert (Hinv : invoked_by func (Invoke acts (Some e))).
    { exists self. now rewrite Hf. }
    destruct fl; simpl snd; constructor; auto.
    apply Forall_app. split; auto. constructor; [exact I | apply IH].
Qed.

Lemma retry_invocations (name : string) (self : D) :
  Forall (invoked_by func) (snd (wrapper name func self)).
Proof.
  rewrite retry_of_loop. cbv zeta.
  pose proof (retry_loop_invocations RETRY_TRIES self) as Hl.
  destruct (fst (fst (loop func RETRY_TRIES self))); simpl snd; auto;
    apply Forall_app; split; auto; repeat constructor.
Qed.

Lemma calls_in_invocations_none (p : action -> bool) (tr : list event) :
  Forall (fun ev => forall acts r, ev = Invoke acts r -> count_in p acts = 0%nat) tr ->
  calls_in_invocations p tr = 0%nat.
Proof.
  induction 1 as [|ev tr Hev _ IH]; [reflexivity|].
  destruct ev as [acts r|a]; simpl; auto.
  rewrite (Hev acts r eq_refl). exact IH.
Qed.

End Wrapped.

(** ** App start *)

Variable u2_app_start : string -> D -> option exn * D.

Local Abbreviation app_start_body := (app_start_func u2_app_start).
Local Abbreviation app_start :=
  (app_start_uiautomator2 RETRY_TRIES RETRY_DELAY serial adb_connect
     install_uiautomator2 sleep handle_adb_error u2_app_start).

(** The body turns any agent base error into the human-takeover signal. *)
Lemma app_start_func_base_error (package_name : string) (self self1 : D)
  (e : exn) :
  u2_app_start package_name self = (Some e, self1) ->
  exn_cls e = U2BaseError ->
  app_start_body package_name self =
  (Raise (raise_bare RequestHumanTakeover), self1,
   [AppStart package_name; LogError e;
    PossibleReasons (package_hint package_name)]).
Proof.
  intros Hcall Hcls.
  unfold app_start_func, try_except, agent_call. rewrite Hcall.
  unfold isinstance. rewrite Hcls. reflexivity.
Qed.

(** The loop ends at once on that signal. *)
Lemma app_start_loop_base_error (package_name : string) (self self1 : D)
  (e : exn) (n : nat) :
  u2_app_start package_name self = (Some e, self1) ->
  exn_cls e = U2BaseError ->
  loop (app_start_body package_name) (S n) self =
  (Broke, self1,
   [Invoke [AppStart package_name; LogError e;
            PossibleReasons (package_hint package_name)]
      (Some (raise_bare RequestHumanTakeover))]).
Proof.
  intros Hcall Hcls.
  pose proof (app_start_func_base_error Hcall Hcls) as Hf.
  cbn [retry_loop]. rewrite Hf. reflexivity.
Qed.

(** C5: for every package name, when the agent answers the app-start
    call with its package-not-found error, [app_start_uiautomator2]
    makes that call once, logs the error and the configuration hint,
    and raises [RequestHumanTakeover] after the critical log line, with
    no delay and no second invocation. *)
Theorem app_start_package_not_found_escalates (package_name : string)
  (self self1 : D) :
  (0 < RETRY_TRIES)%nat ->
  u2_app_start package_name self = (Some (package_not_found package_name), self1) ->
  app_start package_name self =
  (Raise (raise_bare RequestHumanTakeover), self1,
   [Invoke [AppStart package_name;
            LogError (package_not_found package_name);
            PossibleReasons
              (dquote ++ package_name ++ dquote
                 ++ " not found, please check setting Emulator.PackageName")%string]
      (Some (raise_bare RequestHumanTakeover));
    Act (LogCritical "Retry app_start_uiautomator2() failed")]).
Proof.
  intros Hpos Hcall.
  unfold app_start_uiautomator2, retry.
  destruct RETRY_TRIES as [|n]; [lia|].
  rewrite (app_start_loop_base_error n Hcall eq_refl). reflexivity.
Qed.

(** C10: [app_start_uiautomator2] escalates on every agent base error
    of the app-start call, whatever its message: wherever in the loop
    the call raises one, the loop breaks after that single invocation,
    and the wrapper raises [RequestHumanTakeover] having made the
    app-start call once and slept no delay. *)
Theorem app_start_any_base_error_escalates (package_name : string)
  (self self1 : D) (e : exn) :
  u2_app_start package_name self = (Some e, self1) ->
  exn_cls e = U2BaseError ->
  (forall n,
      fst (fst (loop (app_start_body package_name) (S n) self)) = Broke /\
      invocations (snd (loop (app_start_body package_name) (S n) self)) = 1%nat /\
      calls_in_invocations is_app_start
        (snd (loop (app_start_body package_name) (S n) self)) = 1%nat) /\
  ((0 < RETRY_TRIES)%nat ->
   fst (fst (app_start package_name self))
   = Raise (raise_bare RequestHumanTakeover) /\
   invocations (snd (app_start package_name self)) = 1%nat /\
   calls_in_invocations is_app_start (snd (app_start package_name self)) = 1%nat /\
   count_act is_sleep (snd (app_start package_name self)) = 0%nat).
Proof.
  intros Hcall Hcls. split.
  - intros n. rewrite (app_start_loop_base_error n Hcall Hcls).
    repeat split.
  - intros Hpos. unfold app_start_uiautomator2, retry.
    destruct RETRY_TRIES as [|n]; [lia|].
    rewrite (app_start_loop_base_error n Hcall Hcls).
    repeat split.
Qed.

(** ** Drag along a path *)

Variable point2str : Z -> Z -> string.
Variable u2_touch : phase -> Z -> Z -> D -> option exn * D.

Local Abbreviation step := (drag_along_step sleep point2str u2_touch).
Local Abbreviation walk := (drag_along_loop sleep point2str u2_touch).
Local Abbreviation drag_body := (drag_along_func sleep point2str u2_touch).
Local Abbreviation drag_along :=
  (_drag_along RETRY_TRIES RETRY_DELAY serial adb_connect install_uiautomator2
     sleep handle_adb_error point2str u2_touch).

Lemma touch_phase_first (length : nat) : touch_phase length 0 = Down.
Proof. reflexivity. Qed.

Lemma touch_phase_last (length index : nat) :
  (0 < index)%nat -> S index = length -> touch_phase length index = Up.
Proof.
  intros Hpos Hlen. unfold touch_phase.
  destruct (Nat.eqb_spec index 0); [lia|].
  destruct (Z.eqb_spec (Z.of_nat index - Z.of_nat length) (-1)); [reflexivity|lia].
Qed.

Lemma touch_phase_inner (length index : nat) :
  (0 < index)%nat -> (S index < length)%nat -> touch_phase length index = Move.
Proof.
  intros Hpos Hlen. unfold touch_phase.
  destruct (Nat.eqb_spec index 0); [lia|].
  destruct (Z.eqb_spec (Z.of_nat index - Z.of_nat length) (-1)); [lia|reflexivity].
Qed.

(** The three branches of one round do the same calls, under the phase
    the index selects. *)
Lemma drag_along_step_run (length index : nat) (x y : Z) (second : Q) (self : D) :
  step length index (x, y, second) self =
  match u2_touch (touch_phase length index) x y self with
  | (None, s1) =>
      (Return tt, sleep second s1,
       waypoint_calls point2str (touch_phase length index) (x, y, second))
  | (Some e, s1) => (Raise e, s1, [Touch (touch_phase length index) x y])
  end.
Proof.
  unfold drag_along_step, touch_phase, bind, agent_call, tell, self_sleep.
  destruct (index =? 0)%nat;
    [| destruct (Z.of_nat index - Z.of_nat length =? -1)%Z ];
    destruct (u2_touch _ x y self) as [[e|] s1]; reflexivity.
Qed.

(** A traversal does the calls of [path_calls], up to the call that
    raises. *)
Lemma drag_along_loop_run (length : nat) (path : list waypoint) :
  forall index self,
    is_prefix (snd (walk length index path self))
      (path_calls point2str length index path) /\
    (forall a, fst (fst (walk length index path self)) = Return a ->
               snd (walk length index path self)
               = path_calls point2str length index path).
Proof.
  induction path as [|[[x y] second] rest IH]; intros index self.
  - split; [exists []; reflexivity | reflexivity].
  - cbn [drag_along_loop path_calls]. unfold bind.
    rewrite drag_along_step_run.
    destruct (u2_touch (touch_phase length index) x y self) as [[e|] s1].
    + split; [|discriminate].
      eexists. cbn [waypoint_calls app snd]. reflexivity.
    + destruct (IH (S index) (sleep second s1)) as ((tail & Htail) & Hret).
      destruct (walk length (S index) rest (sleep second s1)) as [[r s2] acts2].
      cbn [fst snd] in *. split.
      * exists tail. rewrite Htail. now rewrite app_assoc.
      * intros a Ha. now rewrite (Hret a Ha).
Qed.

Lemma drag_along_first_touch (x y : Z) (second : Q) (rest : list waypoint)
  (self : D) :
  exists tail,
    snd (drag_body ((x, y, second) :: rest) self) = Touch Down x y :: tail.
Proof.
  unfold drag_along_func. cbn [drag_along_loop]. unfold bind.
  rewrite drag_along_step_run, touch_phase_first.
  destruct (u2_touch Down x y self) as [[e|] s1].
  - eexists. reflexivity.
  - destruct (walk _ 1 rest (sleep second s1)) as [[r s2] acts2].
    eexists. reflexivity.
Qed.

Lemma path_calls_tail (length : nat) (mid : list waypoint) (last : waypoint) :
  forall index,
    (0 < index)%nat -> (index + List.length mid + 1)%nat = length ->
    path_calls point2str length index (mid ++ [last])
    = flat_map (waypoint_calls point2str Move) mid
        ++ waypoint_calls point2str Up last.
Proof.
  induction mid as [|w mid IH]; intros index Hpos Hlen.
  - cbn [app path_calls flat_map]. rewrite touch_phase_last, app_nil_r; auto.
    simpl in Hlen. lia.
  - cbn [app path_calls flat_map]. cbn [List.length] in Hlen.
    rewrite touch_phase_inner, IH, <- app_assoc; auto; lia.
Qed.

Lemma path_first_last (path : list waypoint) :
  (2 <= List.length path)%nat ->
  exists first mid last, path = first :: mid ++ [last].
Proof.
  intros Hlen. destruct path as [|first rest]; [simpl in Hlen; lia|].
  destruct (exists_last (l := rest)) as (mid & last & ->).
  - destruct rest; [simpl in Hlen; lia | discriminate].
  - now exists first, mid, last.
Qed.

Lemma retry_loop_head (A : Type) (func : M D A) (n : nat) (self : D) :
  exists r rest, snd (loop func (S n) self) = Invoke (snd (func self)) r :: rest.
Proof.
  destruct (func self) as [[[a|e] self1] acts] eqn:Hf.
  - rewrite (retry_loop_return func n self Hf). now eexists _, _.
  - destruct (dispatch e self1) as [[fl self2] rec] eqn:Hd.
    rewrite (retry_loop_raise func n self Hf Hd).
    destruct fl; now eexists _, _.
Qed.

(** A traversal the device answers throughout makes all its calls and
    returns. *)
Lemma drag_along_loop_answered (length : nat) (path : list waypoint) :
  forall index self,
    touches_succeed sleep u2_touch length index path self ->
    exists self1,
      walk length index path self
      = (Return tt, self1, path_calls point2str length index path).
Proof.
  induction path as [|[[x y] second] rest IH]; intros index self Hok.
  - exists self. reflexivity.
  - cbn [touches_succeed] in Hok. destruct Hok as (s1 & Ht & Hrest).
    destruct (IH (S index) (sleep second s1) Hrest) as (s2 & Hw).
    exists s2. cbn [drag_along_loop path_calls]. unfold bind.
    rewrite drag_along_step_run, Ht, Hw. reflexivity.
Qed.

(** A traversal stops at the first touch the device fails: the calls of
    the waypoints before it are made in full, then that touch, and its
    error is raised. *)
Lemma drag_along_loop_stopped (length : nat) (path : list waypoint) :
  forall index self k e self1,
    touch_fails sleep u2_touch length index path self k e self1 ->
    exists x y second,
      nth_error path k = Some (x, y, second) /\
      walk length index path self
      = (Raise e, self1,
         path_calls point2str length index (firstn k path)
           ++ [Touch (touch_phase length (index + k)) x y]).
Proof.
  induction path as [|[[x y] second] rest IH]; intros index self k e s' Hf.
  - destruct Hf.
  - destruct k as [|k]; cbn [touch_fails] in Hf.
    + exists x, y, second. split; [reflexivity|].
      cbn [drag_along_loop firstn path_calls app]. unfold bind.
      rewrite drag_along_step_run, Hf, Nat.add_0_r. reflexivity.
    + destruct Hf as (s1 & Ht & Hrest).
      destruct (IH (S index) (sleep second s1) k e s' Hrest)
        as (x' & y' & second' & Hnth & Hw).
      exists x', y', second'. split; [exact Hnth|].
      cbn [drag_along_loop firstn path_calls]. unfold bind.
      rewrite drag_along_step_run, Ht, Hw.
      replace (index + S k)%nat with (S index + k)%nat by lia.
      now rewrite <- app_assoc.
Qed.

Lemma drag_along_func_answered (path : list waypoint) (self : D) :
  touches_succeed sleep u2_touch (List.length path) 0 path self ->
  exists self1,
    drag_body path self = (Return tt, self1, gesture_calls point2str path).
Proof.
  apply drag_along_loop_answered.
Qed.

Lemma drag_along_func_stopped (path : list waypoint) (self : D) (k : nat)
  (e : exn) (self1 : D) :
  touch_fails sleep u2_touch (List.length path) 0 path self k e self1 ->
  (k < List.length path)%nat /\
  drag_body path self = (Raise e, self1, failed_calls point2str path k).
Proof.
  intros Hf.
  destruct (drag_along_loop_stopped _ _ _ _ _ _ _ Hf)
    as (x & y & second & Hnth & Hw).
  split.
  - apply nth_error_Some. now rewrite Hnth.
  - unfold drag_along_func, failed_calls. now rewrite Hw, Hnth.
Qed.

(** A traversal that is answered throughout, under the wrapper. *)
Lemma drag_along_answered (path : list waypoint) (self : D) :
  (0 < RETRY_TRIES)%nat ->
  touches_succeed sleep u2_touch (List.length path) 0 path self ->
  exists self1,
    drag_along path self
    = (Return tt, self1, [Invoke (gesture_calls point2str path) None]).
Proof.
  intros Hn Hok. destruct (drag_along_func_answered path self Hok) as (s1 & Hb).
  exists s1. unfold _drag_along. rewrite retry_of_loop.
  destruct RETRY_TRIES as [|n]; [lia|].
  rewrite (retry_loop_return (drag_body path) n self Hb). reflexivity.
Qed.

(** C7: for a path of at least two waypoints, a traversal is touch-down
    at the first waypoint, touch-move at each one in between, touch-up
    at the last, each followed by a sleep of the waypoint's hold time,
    and on a device that answers every touch it makes exactly these
    calls and returns, as does the wrapper in a single invocation.  When
    the device fails the touch of waypoint [k], the traversal has made
    the calls of the waypoints before it and that touch, and raises the
    error.  Under the retry wrapper with
    room for a second attempt, an error the classifier retries is
    followed by the recovery, the delay and a new invocation that starts
    at the touch-down of the first waypoint; if the device answers that
    one throughout, it is the traversal of the whole path and the
    wrapper returns.  Every invocation the wrapper makes starts over at
    the first waypoint. *)
Theorem drag_along_restarts_whole_path (path : list waypoint) :
  (2 <= List.length path)%nat ->
  exists first mid last,
    path = first :: mid ++ [last] /\
    gesture_calls point2str path
    = waypoint_calls point2str Down first
        ++ flat_map (waypoint_calls point2str Move) mid
        ++ waypoint_calls point2str Up last /\
    (forall self,
        touches_succeed sleep u2_touch (List.length path) 0 path self ->
        exists self1,
          drag_body path self
          = (Return tt, self1, gesture_calls point2str path)) /\
    (forall self,
        (0 < RETRY_TRIES)%nat ->
        touches_succeed sleep u2_touch (List.length path) 0 path self ->
        exists self1,
          drag_along path self
          = (Return tt, self1, [Invoke (gesture_calls point2str path) None])) /\
    (forall self k e self1,
        touch_fails sleep u2_touch (List.length path) 0 path self k e self1 ->
        (k < List.length path)%nat /\
        drag_body path self = (Raise e, self1, failed_calls point2str path k)) /\
    (forall self k e self1,
        touch_fails sleep u2_touch (List.length path) 0 path self k e self1 ->
        classify e <> Fatal ->
        classify e <> FatalImmediate ->
        (2 <= RETRY_TRIES)%nat ->
        exists rec self2,
          dispatch e self1 = (Continue, self2, rec) /\
          (exists again r rest,
              snd (drag_along path self)
              = Invoke (failed_calls point2str path k) (Some e)
                  :: map Act rec ++ Act (Sleep RETRY_DELAY)
                  :: Invoke again r :: rest /\
              again = snd (drag_body path (sleep RETRY_DELAY self2)) /\
              is_prefix again (gesture_calls point2str path) /\
              exists tail,
                again = Touch Down (fst (fst first)) (snd (fst first)) :: tail) /\
          (touches_succeed sleep u2_touch (List.length path) 0 path
             (sleep RETRY_DELAY self2) ->
           exists self3,
             drag_along path self
             = (Return tt, self3,
                Invoke (failed_calls point2str path k) (Some e)
                  :: map Act rec
                  ++ [Act (Sleep RETRY_DELAY);
                      Invoke (gesture_calls point2str path) None]))) /\
    (forall self,
        Forall (fun ev =>
                  forall acts r, ev = Invoke acts r ->
                    is_prefix acts (gesture_calls point2str path) /\
                    (r = None -> acts = gesture_calls point2str path) /\
                    exists tail, acts = Touch Down (fst (fst first)) (snd (fst first)) :: tail)
          (snd (drag_along path self))).
Proof.
  intros Hlen.
  destruct (path_first_last path Hlen) as (first & mid & last & Hpath).
  exists first, mid, last.
  assert (Hrun : forall self,
             is_prefix (snd (drag_body path self))
               (gesture_calls point2str path) /\
             (fst (fst (drag_body path self)) = Return tt ->
              snd (drag_body path self) = gesture_calls point2str path)).
  { intros self. unfold drag_along_func, gesture_calls.
    destruct (drag_along_loop_run (List.length path) path 0 self) as (Hp & Hr).
    split; [exact Hp | apply Hr]. }
  assert (Hdown : forall self,
             exists tail, snd (drag_body path self)
                          = Touch Down (fst (fst first)) (snd (fst first)) :: tail).
  { intros self. rewrite Hpath. destruct first as [[x y] second].
    apply drag_along_first_touch. }
  split; [exact Hpath|].
  split; [|split; [|split; [|split; [|split]]]].
  - rewrite Hpath. unfold gesture_calls. cbn [path_calls].
    rewrite touch_phase_first. f_equal.
    apply path_calls_tail; [lia|]. simpl. rewrite length_app. simpl. lia.
  - intros self. apply drag_along_func_answered.
  - intros self. apply drag_along_answered.
  - intros self k e self1. apply drag_along_func_stopped.
  - intros self k e self1 Hfail Hnf Hni Htries.
    destruct (drag_along_func_stopped path self k e self1 Hfail) as (_ & Hf).
    destruct (except_dispatch_outcome e self1) as (rec & _ & Ho).
    assert (Hd : exists self2, dispatch e self1 = (Continue, self2, rec)).
    { destruct (spec_classify handle_adb_error e);
        try congruence; destruct Ho as (Hd & _); eauto. }
    destruct Hd as (self2 & Hd).
    exists rec, self2. split; [exact Hd|].
    assert (Etries : exists n, RETRY_TRIES = S (S n))
      by (exists (RETRY_TRIES - 2)%nat; lia).
    destruct Etries as (n & Etries).
    assert (Hloop :
      loop (drag_body path) (S (S n)) self
      = (fst (fst (loop (drag_body path) (S n) (sleep RETRY_DELAY self2))),
         snd (fst (loop (drag_body path) (S n) (sleep RETRY_DELAY self2))),
         Invoke (failed_calls point2str path k) (Some e)
           :: map Act rec ++ Act (Sleep RETRY_DELAY)
           :: snd (loop (drag_body path) (S n) (sleep RETRY_DELAY self2))))
      by exact (retry_loop_raise (drag_body path) (S n) self Hf Hd).
    split.
    + destruct (retry_loop_head (drag_body path) n (sleep RETRY_DELAY self2))
        as (r & rest & Hhead).
      unfold _drag_along. rewrite retry_of_loop, Etries. cbv zeta.
      rewrite Hloop. cbn [fst snd]. rewrite Hhead.
      destruct (fst (fst (loop (drag_body path) (S n) (sleep RETRY_DELAY self2))))
        as [a| | |e'].
      * exists (snd (drag_body path (sleep RETRY_DELAY self2))), r, rest.
        split; [reflexivity|]. split; [reflexivity|].
        split; [apply Hrun | apply Hdown].
      * exists (snd (drag_body path (sleep RETRY_DELAY self2))), r,
          (rest ++ [Act (LogCritical (retry_failed_message "_drag_along"))]).
        split.
        { cbn [snd]. cbn [app]. f_equal. rewrite <- app_assoc. reflexivity. }
        split; [reflexivity|]. split; [apply Hrun | apply Hdown].
      * exists (snd (drag_body path (sleep RETRY_DELAY self2))), r,
          (rest ++ [Act (LogCritical (retry_failed_message "_drag_along"))]).
        split.
        { cbn [snd]. cbn [app]. f_equal. rewrite <- app_assoc. reflexivity. }
        split; [reflexivity|]. split; [apply Hrun | apply Hdown].
      * exists (snd (drag_body path (sleep RETRY_DELAY self2))), r, rest.
        split; [reflexivity|]. split; [reflexivity|].
        split; [apply Hrun | apply Hdown].
    + intros Hok.
      destruct (drag_along_func_answered path _ Hok) as (self3 & Hb).
      exists self3. unfold _drag_along. rewrite retry_of_loop, Etries. cbv zeta.
      rewrite Hloop.
      rewrite (retry_loop_return (drag_body path) n _ Hb). reflexivity.
  - intros self.
    eapply Forall_impl; [|apply retry_invocations].
    intros [acts0 r0|a] Hinv acts r Heq; [|discriminate].
    injection Heq as <- <-. destruct Hinv as (s & <- & ->).
    destruct (Hrun s) as (Hp & Hr). split; [exact Hp|]. split; [|apply Hdown].
    intros Hnone. apply Hr.
    destruct (fst (fst (drag_body _ s))) as [[]|e]; [reflexivity|discriminate].
Qed.

(** C9: on a path of a single waypoint the first-index branch runs, so
    the traversal is one touch-down at that waypoint and no touch-up is
    ever issued, in any invocation the retry wrapper makes. *)
Theorem drag_along_single_waypoint_only_down (x y : Z) (second : Q) (self : D) :
  gesture_calls point2str [(x, y, second)]
  = [Touch Down x y; LogInfo (point2str x y ++ " down")%string; Sleep second] /\
  is_prefix (snd (drag_body [(x, y, second)] self))
    (gesture_calls point2str [(x, y, second)]) /\
  (exists tail, snd (drag_body [(x, y, second)] self) = Touch Down x y :: tail) /\
  count_in is_touch_up (snd (drag_body [(x, y, second)] self)) = 0%nat /\
  calls_in_invocations is_touch_up (snd (drag_along [(x, y, second)] self)) = 0%nat.
Proof.
  assert (Hbody : forall s,
             snd (drag_body [(x, y, second)] s) = [Touch Down x y] \/
             snd (drag_body [(x, y, second)] s)
             = [Touch Down x y; LogInfo (point2str x y ++ " down")%string;
                Sleep second]).
  { intros s. unfold drag_along_func. cbn [drag_along_loop List.length].
    unfold bind. rewrite drag_along_step_run, touch_phase_first.
    destruct (u2_touch Down x y s) as [[e|] s1]; [left|right]; reflexivity. }
  split; [reflexivity|]. split; [|split; [|split]].
  - destruct (Hbody self) as [-> | ->]; eexists; reflexivity.
  - apply drag_along_first_touch.
  - destruct (Hbody self) as [-> | ->]; reflexivity.
  - apply calls_in_invocations_none.
    eapply Forall_impl; [|apply retry_invocations].
    intros [acts0 r0|a] Hinv acts r Heq; [|discriminate].
    injection Heq as <- <-. destruct Hinv as (s & <- & _).
    destruct (Hbody s) as [-> | ->]; reflexivity.
Qed.

End Dispatcher.

(** ** Pixels *)

Lemma py_int_comp (x y : Q) : x == y -> py_int x = py_int y.
Proof.
  unfold Qeq, py_int. intros H.
  rewrite <- (Z.quot_mul_cancel_r (Qnum x) (Zpos (Qden x)) (Zpos (Qden y)))
    by discriminate.
  rewrite <- (Z.quot_mul_cancel_r (Qnum y) (Zpos (Qden y)) (Zpos (Qden x)))
    by discriminate.
  rewrite H. f_equal. apply Z.mul_comm.
Qed.

(** [int] drops the fraction. *)
Lemma py_int_truncation (c : Q) : truncation_of c (py_int c).
Proof.
  destruct c as [a b]. unfold truncation_of, py_int. cbn [Qnum Qden].
  pose proof (Z.quot_rem' a (Zpos b)) as Hqr.
  pose proof (Z.rem_bound_abs a (Zpos b) ltac:(discriminate)) as Hr.
  pose proof (Z.quot_abs a (Zpos b) ltac:(discriminate)) as Hq.
  pose proof (Z.mul_quot_le (Z.abs a) (Zpos b) (Z.abs_nonneg a) ltac:(discriminate)) as Hle.
  change (Z.abs (Zpos b)) with (Zpos b) in *.
  split.
  - unfold Qle, Qabs, inject_Z. cbn [Qnum Qden]. lia.
  - unfold Qlt, Qabs, Qminus, Qplus, Qopp, inject_Z. cbn [Qnum Qden].
    replace (a * 1 + - (a ÷ Zpos b) * Zpos b)%Z with (Z.rem a (Zpos b)) by lia.
    rewrite Pos.mul_1_r. lia.
Qed.

Lemma py_int_integer (c : Q) (z : Z) : c == inject_Z z -> py_int c = z.
Proof.
  intros H. rewrite (py_int_comp H). unfold py_int, inject_Z. cbn [Qnum Qden].
  apply Z.quot_1_r.
Qed.

(** [int] of a finite coordinate drops its fraction; only inf and nan
    make it raise. *)
Lemma np_int_truncates (a : num) (z : Z) :
  np_int a = inr z -> coordinate_truncated a z.
Proof.
  destruct a as [x|q|s|]; cbn [np_int]; intros H; try discriminate;
    injection H as <-.
  - exists (inject_Z x). split; [reflexivity|].
    rewrite <- (py_int_integer (c := inject_Z x) (z := x)) at 2
      by reflexivity.
    apply py_int_truncation.
  - exists q. split; [reflexivity | apply py_int_truncation].
Qed.

Lemma np_int_raises (a : num) :
  (exists e, np_int a = inl e) <-> np_value a = None.
Proof.
  destruct a; cbn [np_int np_value]; split;
    try congruence; try (intros (e & H); discriminate); eauto.
Qed.

(** The pixel of each waypoint is made by [int] from its coordinates. *)
Lemma all_pixels_some (raw : list (num * num * Q)) :
  forall path,
    all_pixels raw = inr path ->
    Forall2 (fun r w =>
               np_int (fst (fst r)) = inr (fst (fst w)) /\
               np_int (snd (fst r)) = inr (snd (fst w)) /\
               snd w = snd r)
      raw path.
Proof.
  induction raw as [|[[x y] d] raw IH]; intros path H; cbn [all_pixels] in H.
  - injection H as <-. constructor.
  - unfold to_pixels in H.
    destruct (np_int x) as [e|px] eqn:Ex; [discriminate|].
    destruct (np_int y) as [e|py] eqn:Ey; [discriminate|].
    destruct (all_pixels raw) as [e|pxs]; [discriminate|].
    injection H as <-. constructor; [|now apply IH].
    cbn [fst snd]. auto.
Qed.

(** The conversion raises exactly when a coordinate is inf or nan. *)
Lemma all_pixels_raises (raw : list (num * num * Q)) :
  (exists e, all_pixels raw = inl e) <->
  Exists (fun r => np_value (fst (fst r)) = None \/ np_value (snd (fst r)) = None)
    raw.
Proof.
  induction raw as [|[[x y] d] raw IH]; cbn [all_pixels].
  - split; [intros (e & H); discriminate | intros H; inversion H].
  - unfold to_pixels. split.
    + intros (e & H).
      destruct (np_int x) as [ex|px] eqn:Ex.
      { left; left. apply np_int_raises. eauto. }
      destruct (np_int y) as [ey|py] eqn:Ey.
      { left; right. apply np_int_raises. eauto. }
      destruct (all_pixels raw) as [er|pxs]; [|discriminate].
      right. apply IH. eauto.
    + intros H. apply Exists_cons in H. cbn [fst snd] in H.
      destruct H as [[H|H]|H].
      * apply np_int_raises in H. destruct H as (e & ->). eauto.
      * apply np_int_raises in H. destruct H as (e & ->).
        destruct (np_int x); eauto.
      * apply IH in H. destruct H as (e & ->).
        destruct (np_int x); [eauto|]. destruct (np_int y); eauto.
Qed.

Lemma all_pixels_durations (raw : list (num * num * Q)) (path : list waypoint) :
  all_pixels raw = inr path ->
  map (fun w : waypoint => snd w) path
  = map (fun r : num * num * Q => snd r) raw.
Proof.
  intros H. apply all_pixels_some in H.
  induction H as [|r w raw path (_ & _ & Hd) _ IH]; [reflexivity|].
  cbn [map]. now rewrite Hd, IH.
Qed.

(** ** Whole numbers in the arithmetic of the arrays

    On integers of at most 52 bits no operation wraps around or rounds,
    whichever of the two types the arrays have. *)

Lemma round64_comp (q q' : Q) : q == q' -> round64 q = round64 q'.
Proof.
  intros H. unfold round64. now rewrite (Qred_complete q q' H).
Qed.

Lemma rne_div_1 (a : Z) : rne_div a 1 = a.
Proof.
  unfold rne_div. rewrite Z.mod_1_r, Z.div_1_r. reflexivity.
Qed.

Lemma round64_pos_small (a : positive) :
  (Zpos a <= 2 ^ 52)%Z ->
  exists v, round64_pos (Zpos a) 1 = Some v /\ v == inject_Z (Zpos a).
Proof.
  intros Hle.
  pose proof (Z.log2_spec (Zpos a) eq_refl) as (Hlo & Hhi).
  pose proof (Z.log2_nonneg (Zpos a)) as H0.
  assert (He : (Z.log2 (Zpos a) <= 52)%Z).
  { pose proof (Z.log2_le_mono _ _ Hle) as Hm.
    rewrite Z.log2_pow2 in Hm by lia. exact Hm. }
  unfold round64_pos, floor_log2.
  change (Z.log2 1) with 0%Z. rewrite Z.sub_0_r.
  destruct (Z.leb_spec 0 (Z.log2 (Zpos a))) as [_|]; [|lia].
  rewrite Z.mul_1_l.
  destruct (Z.leb_spec (2 ^ Z.log2 (Zpos a)) (Zpos a)) as [_|]; [|lia].
  set (e := Z.log2 (Zpos a)) in *.
  rewrite Z.max_l by lia.
  destruct (Z.leb_spec 0 (e - 52)) as [Hu|Hu].
  - assert (e = 52)%Z as He52 by lia. rewrite He52.
    change (52 - 52)%Z with 0%Z. change (2 ^ 0)%Z with 1%Z.
    rewrite Z.mul_1_l, rne_div_1, Z.mul_1_r, Z.add_0_r.
    fold e. rewrite He52. cbn [Z.leb Z.compare].
    eexists. split; [reflexivity|]. reflexivity.
  - rewrite rne_div_1.
    assert (Hk : (0 < - (e - 52))%Z) by lia.
    set (k := (- (e - 52))%Z) in *.
    assert (Hpow : (0 < 2 ^ k)%Z) by (apply Z.pow_pos_nonneg; lia).
    rewrite Z.log2_mul_pow2 by lia.
    fold e.
    destruct (Z.leb_spec 1024 (k + e + (e - 52))) as [|_]; [lia|].
    eexists. split; [reflexivity|].
    unfold Qeq, inject_Z. cbn [Qnum Qden].
    rewrite Z2Pos.id by exact Hpow. lia.
Qed.

Lemma Qred_inject_Z (z : Z) : Qred (inject_Z z) = inject_Z z.
Proof.
  apply Qcanon.Qred_identity. unfold inject_Z. cbn [Qnum Qden]. apply Z.gcd_1_r.
Qed.

Lemma round64_small (z : Z) :
  small z -> exists v, round64 (inject_Z z) = Float64 v /\ v == inject_Z z.
Proof.
  unfold small. intros Hs. unfold round64. rewrite Qred_inject_Z.
  destruct z as [|a|a]; cbn [inject_Z Qnum Qden].
  - exists 0. split; reflexivity.
  - destruct (@round64_pos_small a) as (v & Hr & Hv); [exact Hs|].
    rewrite Hr. exists v. split; [reflexivity | exact Hv].
  - destruct (@round64_pos_small a) as (v & Hr & Hv); [exact Hs|].
    rewrite Hr. exists (- v). split; [reflexivity|]. rewrite Hv. reflexivity.
Qed.

Lemma wrap64_small (z : Z) : small z -> wrap64 z = z.
Proof.
  unfold small, wrap64. intros Hs.
  assert (H : (2 ^ 52 < 2 ^ 63)%Z) by reflexivity.
  rewrite Z.mod_small; [lia|].
  change (2 ^ 64)%Z with (2 * 2 ^ 63)%Z. lia.
Qed.

Lemma holds_np_int (a : num) (z : Z) : holds a z -> np_int a = inr z.
Proof.
  destruct a as [x|q|s|]; cbn [holds np_int]; intros H; try contradiction.
  - now subst.
  - now rewrite (py_int_integer H).
Qed.

Lemma holds_to_float (a : num) (z : Z) :
  holds a z -> small z -> exists q, to_float a = Float64 q /\ q == inject_Z z.
Proof.
  destruct a as [x|q|s|]; cbn [holds to_float]; intros H Hs;
    try contradiction.
  - subst x. apply round64_small, Hs.
  - exists q. split; [reflexivity | exact H].
Qed.

Lemma holds_round64 (q : Q) (z : Z) :
  q == inject_Z z -> small z -> holds (round64 q) z.
Proof.
  intros Hq Hs. rewrite (round64_comp Hq).
  destruct (round64_small Hs) as (v & -> & Hv). exact Hv.
Qed.

Lemma float_add_rounds : rounds float_add Qplus.
Proof. intros a b p q Ha Hb. unfold float_add. now rewrite Ha, Hb. Qed.

Lemma float_sub_rounds : rounds float_sub Qminus.
Proof. intros a b p q Ha Hb. unfold float_sub. now rewrite Ha, Hb. Qed.

Lemma float_mul_rounds : rounds float_mul Qmult.
Proof. intros a b p q Ha Hb. unfold float_mul. now rewrite Ha, Hb. Qed.

Lemma holds_float_op (ff : num -> num -> num) (fq : Q -> Q -> Q)
  (fz : Z -> Z -> Z) (a b : num) (x y : Z) :
  rounds ff fq ->
  (forall p q, p == inject_Z x -> q == inject_Z y -> fq p q == inject_Z (fz x y)) ->
  holds a x -> holds b y -> small x -> small y -> small (fz x y) ->
  holds (ff a b) (fz x y).
Proof.
  intros Hff Hf Ha Hb Hx Hy Hxy.
  destruct (holds_to_float a Ha Hx) as (p & Hp & Hpv).
  destruct (holds_to_float b Hb Hy) as (q & Hq & Hqv).
  rewrite (Hff a b p q Hp Hq).
  apply holds_round64; auto.
Qed.

Lemma holds_elem_op (ff : num -> num -> num) (fq : Q -> Q -> Q)
  (fz : Z -> Z -> Z) (ints : bool) (a b : num) (x y : Z) :
  rounds ff fq ->
  (forall p q, p == inject_Z x -> q == inject_Z y -> fq p q == inject_Z (fz x y)) ->
  holds a x -> holds b y -> small x -> small y -> small (fz x y) ->
  holds (elem_op fz ff ints a b) (fz x y).
Proof.
  intros Hff Hf Ha Hb Hx Hy Hxy.
  pose proof (@holds_float_op ff fq fz a b x y Hff Hf Ha Hb Hx Hy Hxy) as Hfl.
  unfold elem_op. destruct ints; [|exact Hfl].
  destruct a as [x'|p|s|]; try exact Hfl.
  destruct b as [y'|q|s|]; try exact Hfl.
  cbn [holds] in *. subst. now apply wrap64_small.
Qed.

Lemma plus_holds (x y : Z) (p q : Q) :
  p == inject_Z x -> q == inject_Z y -> p + q == inject_Z (x + y).
Proof. intros -> ->. now rewrite inject_Z_plus. Qed.

Lemma minus_holds (x y : Z) (p q : Q) :
  p == inject_Z x -> q == inject_Z y -> p - q == inject_Z (x - y).
Proof.
  intros -> ->. unfold Z.sub, Qminus. now rewrite inject_Z_plus, inject_Z_opp.
Qed.

Lemma mult_holds (x y : Z) (p q : Q) :
  p == inject_Z x -> q == inject_Z y -> p * q == inject_Z (x * y).
Proof. intros -> ->. now rewrite inject_Z_mult. Qed.

Lemma pholds_np_array (p : point) (x y : Z) :
  pholds p x y -> small x -> small y -> pholds (np_array p) x y.
Proof.
  intros (Hx & Hy) Sx Sy. unfold np_array.
  destruct (int_array p); [split; assumption|].
  destruct (holds_to_float _ Hx Sx) as (q & Hq & Hv).
  destruct (holds_to_float _ Hy Sy) as (q' & Hq' & Hv').
  split; cbn [fst snd]; [rewrite Hq | rewrite Hq']; assumption.
Qed.

Lemma pholds_np_add (p q : point) (x y x' y' : Z) :
  pholds p x y -> pholds q x' y' ->
  small x -> small y -> small x' -> small y' ->
  small (x + x') -> small (y + y') ->
  pholds (np_add p q) (x + x') (y + y').
Proof.
  intros (Hx & Hy) (Hx' & Hy') ? ? ? ? ? ?.
  split; cbn [np_add array_op fst snd];
    eapply holds_elem_op; eauto using plus_holds, float_add_rounds.
Qed.

Lemma pholds_np_sub (p q : point) (x y x' y' : Z) :
  pholds p x y -> pholds q x' y' ->
  small x -> small y -> small x' -> small y' ->
  small (x - x') -> small (y - y') ->
  pholds (np_sub p q) (x - x') (y - y').
Proof.
  intros (Hx & Hy) (Hx' & Hy') ? ? ? ? ? ?.
  split; cbn [np_sub array_op fst snd];
    eapply holds_elem_op; eauto using minus_holds, float_sub_rounds.
Qed.

Lemma pholds_np_scale (k : Z) (p : point) (x y : Z) :
  pholds p x y -> small k -> small x -> small y ->
  small (k * x) -> small (k * y) ->
  pholds (np_scale k p) (k * x) (k * y).
Proof.
  intros (Hx & Hy) ? ? ? ? ?.
  split; cbn [np_scale array_op fst snd];
    eapply holds_elem_op; eauto using mult_holds, float_mul_rounds;
    reflexivity.
Qed.

Lemma pholds_np_true_divide_1 (p : point) (x y : Z) :
  pholds p x y -> small x -> small y -> pholds (np_true_divide p 1) x y.
Proof.
  intros (Hx & Hy) Sx Sy. unfold np_true_divide, float_divide.
  destruct (holds_to_float _ Hx Sx) as (q & -> & Hv).
  destruct (holds_to_float _ Hy Sy) as (q' & -> & Hv').
  cbn [Z.eqb fst snd]. split; apply holds_round64; auto.
  - rewrite Hv. field.
  - rewrite Hv'. field.
Qed.

Lemma pholds_eq (p : point) (x y x' y' : Z) :
  pholds p x y -> x = x' -> y = y' -> pholds p x' y'.
Proof. now intros H <- <-. Qed.

Lemma to_pixels_holds (p : point) (x y : Z) (d : Q) :
  pholds p x y -> to_pixels (fst p, snd p, d) = inr (x, y, d).
Proof.
  intros (Hx & Hy). unfold to_pixels.
  now rewrite (holds_np_int _ _ Hx), (holds_np_int _ _ Hy).
Qed.

(** A draw from the empty rectangle is the point zero. *)
Lemma zero_area_point (p : point) : in_area zero_area p -> pholds p 0 0.
Proof.
  unfold in_area, zero_area.
  intros (x & y & Hx & Hy & Hx0 & Hx1 & Hy0 & Hy1).
  assert (Ex : x == 0) by (apply Qle_antisym; assumption).
  assert (Ey : y == 0) by (apply Qle_antisym; assumption).
  destruct p as [a b]. unfold pholds. cbn [fst snd] in *. split.
  - destruct a as [z|q|s|]; cbn [np_value holds] in *; try discriminate;
      injection Hx as <-; [|exact Ex].
    unfold Qeq in Ex. cbn in Ex. lia.
  - destruct b as [z|q|s|]; cbn [np_value holds] in *; try discriminate;
      injection Hy as <-; [|exact Ey].
    unfold Qeq in Ey. cbn in Ey. lia.
Qed.

Ltac small_numbers :=
  unfold small in *; change (2 ^ 52)%Z with 4503599627370496%Z in *; lia.

Ltac whole_numbers lem :=
  eapply pholds_eq;
  [ eapply lem; try eassumption; small_numbers | lia | lia ].

(** ** The drag path *)

Lemma split_at_length (T : Type) (l t : list T) (n : nat) :
  List.length l = n -> firstn n (l ++ t) = l /\ skipn n (l ++ t) = t.
Proof.
  intros <-. split.
  - rewrite firstn_app, Nat.sub_diag, firstn_all. cbn [firstn].
    apply app_nil_r.
  - rewrite skipn_app, Nat.sub_diag, skipn_all. reflexivity.
Qed.

Section Synthesizer.

Variable G : Type.
Variable random_rectangle_point : area -> G -> point * G.

Local Abbreviation raw_path := (drag_raw_path random_rectangle_point).
Local Abbreviation pixel_path := (drag_path random_rectangle_point).

Lemma line_points_length (p1 p2 : point) (n : nat) (random_range : area)
  (indexes : list nat) :
  forall g,
    List.length (fst (line_points random_rectangle_point p1 p2 n indexes
                        random_range g))
    = List.length indexes.
Proof.
  induction indexes as [|index rest IH]; intros g; [reflexivity|].
  cbn [line_points].
  destruct (random_rectangle_point random_range g) as [r g1].
  specialize (IH g1).
  destruct (line_points random_rectangle_point p1 p2 n rest random_range g1)
    as [pts g2].
  cbn [fst List.length] in *. now rewrite IH.
Qed.

(** The path before conversion is the line, then three waypoints. *)
Lemma drag_raw_path_parts (p1 p2 : point) (segments : nat) (shake : point)
  (point_random shake_random : area) (swipe_duration shake_duration : Q)
  (g : G) :
  exists (line : list point) (over back settle : point),
    fst (raw_path p1 p2 segments shake point_random shake_random
           swipe_duration shake_duration g)
    = map (fun xy : point => (fst xy, snd xy, swipe_duration)) line
        ++ [ (fst over, snd over, shake_duration);
             (fst back, snd back, shake_duration);
             (fst settle, snd settle, shake_duration) ] /\
    List.length line = S segments.
Proof.
  unfold drag_raw_path, random_line_segments.
  destruct (random_rectangle_point point_random g) as [r1 g1].
  destruct (random_rectangle_point point_random g1) as [r2 g2].
  pose proof (line_points_length (np_sub (np_array p1) (np_array r1))
                (np_sub (np_array p2) (np_array r2)) segments
                point_random (seq 0 (S segments)) g2) as Hlen.
  destruct (line_points random_rectangle_point
              (np_sub (np_array p1) (np_array r1))
              (np_sub (np_array p2) (np_array r2))
              segments (seq 0 (S segments)) point_random g2) as [line g3].
  destruct (random_rectangle_point shake_random g3) as [r3 g4].
  destruct (random_rectangle_point shake_random g4) as [r4 g5].
  eexists line, _, _, _. cbn [fst] in *.
  rewrite length_seq in Hlen. split; [reflexivity | exact Hlen].
Qed.

(** The durations of the path before conversion. *)
Lemma drag_raw_path_durations (p1 p2 : point) (segments : nat) (shake : point)
  (point_random shake_random : area) (swipe_duration shake_duration : Q)
  (g : G) :
  map (fun r : num * num * Q => snd r)
    (fst (raw_path p1 p2 segments shake point_random shake_random
            swipe_duration shake_duration g))
  = repeat swipe_duration (S segments) ++ repeat shake_duration 3.
Proof.
  destruct (drag_raw_path_parts p1 p2 segments shake point_random shake_random
              swipe_duration shake_duration g)
    as (line & over & back & settle & -> & <-).
  rewrite map_app, map_map. cbn [map snd repeat]. f_equal.
  induction line as [|xy line IH]; [reflexivity|].
  cbn [map List.length repeat snd]. now rewrite IH.
Qed.

(** A draw from the empty rectangle lies in it. *)
Hypothesis zero_draw :
  forall g, in_area zero_area (fst (random_rectangle_point zero_area g)).

(** C6: with one segment, shake [(0, 15)] and both jitter rectangles
    empty, the path has exactly five waypoints, the first two with the
    swipe duration and the last three with the shake duration, whatever
    numbers the two points are made of; the traversal touches down at
    the first, up at the last and moves at the three in between, and on
    a device that answers every touch [drag_uiautomator2] makes exactly
    these calls in one invocation.  For points of whole numbers, given
    as ints or as floats, the five waypoints are the start, the end,
    the end moved by the shake, the end moved back by the shake, and
    the end itself. *)
Theorem drag_single_segment_has_five_waypoints (p1 p2 : point)
  (swipe_duration shake_duration : Q) (g : G) :
  let run :=
    pixel_path p1 p2 1 (Int64 0, Int64 15) zero_area zero_area
      swipe_duration shake_duration g in
  (forall path,
      fst run = inr path ->
      exists start stop overshoot correction settle : Z * Z,
        path = [ (fst start, snd start, swipe_duration);
                 (fst stop, snd stop, swipe_duration);
                 (fst overshoot, snd overshoot, shake_duration);
                 (fst correction, snd correction, shake_duration);
                 (fst settle, snd settle, shake_duration) ] /\
        forall point2str,
          gesture_calls point2str path
          = waypoint_calls point2str Down (fst start, snd start, swipe_duration)
              ++ waypoint_calls point2str Move
                   (fst stop, snd stop, swipe_duration)
              ++ waypoint_calls point2str Move
                   (fst overshoot, snd overshoot, shake_duration)
              ++ waypoint_calls point2str Move
                   (fst correction, snd correction, shake_duration)
              ++ waypoint_calls point2str Up
                   (fst settle, snd settle, shake_duration)) /\
  (forall x1 y1 x2 y2 : Z,
      pholds p1 x1 y1 -> pholds p2 x2 y2 ->
      small x1 -> small y1 -> small x2 ->
      small (y2 - 15) -> small (y2 + 15) ->
      fst run
      = inr [ (x1, y1, swipe_duration);
              (x2, y2, swipe_duration);
              (x2 + 0, y2 + 15, shake_duration)%Z;
              (x2 - 0, y2 - 15, shake_duration)%Z;
              (x2, y2, shake_duration) ]) /\
  (forall (D : Type) (RETRY_TRIES : nat) (RETRY_DELAY : Q) serial adb_connect
          install_uiautomator2 sleep handle_adb_error point2str u2_touch
          (self : D) path,
      fst run = inr path ->
      (0 < RETRY_TRIES)%nat ->
      touches_succeed sleep u2_touch (List.length path) 0 path self ->
      exists self1,
        fst (drag_uiautomator2 RETRY_TRIES RETRY_DELAY serial adb_connect
               install_uiautomator2 sleep handle_adb_error point2str u2_touch
               random_rectangle_point p1 p2 1 (Int64 0, Int64 15)
               zero_area zero_area swipe_duration shake_duration g self)
        = (Return tt, self1, [Invoke (gesture_calls point2str path) None])).
Proof.
  cbv zeta. split; [|split].
  - intros path Hpath. unfold drag_path in Hpath.
    pose proof (drag_raw_path_durations p1 p2 1 (Int64 0, Int64 15) zero_area
                  zero_area swipe_duration shake_duration g) as Hd.
    destruct (raw_path p1 p2 1 (Int64 0, Int64 15) zero_area zero_area
                swipe_duration shake_duration g) as [raw g'].
    cbn [fst] in *. apply all_pixels_durations in Hpath.
    rewrite Hd in Hpath. cbn [repeat app] in Hpath.
    destruct path as [|[[a1 b1] d1] [|[[a2 b2] d2] [|[[a3 b3] d3]
                     [|[[a4 b4] d4] [|[[a5 b5] d5] [|w path]]]]]];
      try discriminate.
    cbn [map snd] in Hpath.
    injection Hpath as -> -> -> -> ->.
    exists (a1, b1), (a2, b2), (a3, b3), (a4, b4), (a5, b5).
    split; reflexivity.
  - intros x1 y1 x2 y2 H1 H2 Sx1 Sy1 Sx2 Sy2m Sy2p.
    assert (Sy2 : small y2) by small_numbers.
    assert (S0 : small 0) by small_numbers.
    assert (S1 : small 1) by small_numbers.
    assert (S15 : small 15) by small_numbers.
    unfold drag_path, drag_raw_path, random_line_segments.
    cbn [seq line_points].
    pose proof (zero_area_point (zero_draw g)) as Hr1.
    destruct (random_rectangle_point zero_area g) as [r1 g1].
    pose proof (zero_area_point (zero_draw g1)) as Hr2.
    destruct (random_rectangle_point zero_area g1) as [r2 g2].
    pose proof (zero_area_point (zero_draw g2)) as Hr3.
    destruct (random_rectangle_point zero_area g2) as [r3 g3].
    pose proof (zero_area_point (zero_draw g3)) as Hr4.
    destruct (random_rectangle_point zero_area g3) as [r4 g4].
    pose proof (zero_area_point (zero_draw g4)) as Hr5.
    destruct (random_rectangle_point zero_area g4) as [r5 g5].
    pose proof (zero_area_point (zero_draw g5)) as Hr6.
    destruct (random_rectangle_point zero_area g5) as [r6 g6].
    cbn [fst snd] in Hr1, Hr2, Hr3, Hr4, Hr5, Hr6.
    apply pholds_np_array in H1, H2, Hr1, Hr2, Hr3, Hr4, Hr5, Hr6; trivial.
    assert (Hshake : pholds (np_array (Int64 0, Int64 15)) 0 15)
      by (split; reflexivity).
    unfold interpolate.
    change (Z.of_nat (1 - 0)) with 1%Z. change (Z.of_nat (1 - 1)) with 0%Z.
    change (Z.of_nat 0) with 0%Z. change (Z.of_nat 1) with 1%Z.
    set (q1 := np_sub (np_array p1) (np_array r1)).
    set (q2 := np_sub (np_array p2) (np_array r2)).
    assert (Hq1 : pholds q1 x1 y1) by whole_numbers pholds_np_sub.
    assert (Hq2 : pholds q2 x2 y2) by whole_numbers pholds_np_sub.
    assert (Ha1 : pholds (np_scale 1 q1) x1 y1)
      by whole_numbers pholds_np_scale.
    assert (Ha2 : pholds (np_scale 0 q2) 0 0)
      by whole_numbers pholds_np_scale.
    assert (Ha3 : pholds (np_add (np_scale 1 q1) (np_scale 0 q2)) x1 y1)
      by whole_numbers pholds_np_add.
    apply pholds_np_true_divide_1 in Ha3; trivial.
    assert (Hstart :
      pholds (np_add (np_true_divide
                        (np_add (np_scale 1 q1) (np_scale 0 q2)) 1)
                (np_array r3)) x1 y1)
      by whole_numbers pholds_np_add.
    assert (Hb1 : pholds (np_scale 0 q1) 0 0)
      by whole_numbers pholds_np_scale.
    assert (Hb2 : pholds (np_scale 1 q2) x2 y2)
      by whole_numbers pholds_np_scale.
    assert (Hb3 : pholds (np_add (np_scale 0 q1) (np_scale 1 q2)) x2 y2)
      by whole_numbers pholds_np_add.
    apply pholds_np_true_divide_1 in Hb3; trivial.
    assert (Hstop :
      pholds (np_add (np_true_divide
                        (np_add (np_scale 0 q1) (np_scale 1 q2)) 1)
                (np_array r4)) x2 y2)
      by whole_numbers pholds_np_add.
    assert (Hc1 : pholds (np_add q2 (np_array (Int64 0, Int64 15)))
                    (x2 + 0) (y2 + 15))
      by whole_numbers pholds_np_add.
    assert (Hover :
      pholds (np_add (np_add q2 (np_array (Int64 0, Int64 15))) (np_array r5))
        (x2 + 0) (y2 + 15))
      by whole_numbers pholds_np_add.
    assert (Hd1 : pholds (np_sub q2 (np_array (Int64 0, Int64 15)))
                    (x2 - 0) (y2 - 15))
      by whole_numbers pholds_np_sub.
    assert (Hback :
      pholds (np_sub (np_sub q2 (np_array (Int64 0, Int64 15))) (np_array r6))
        (x2 - 0) (y2 - 15))
      by whole_numbers pholds_np_sub.
    cbn [map app fst snd all_pixels].
    rewrite (to_pixels_holds _ Hstart), (to_pixels_holds _ Hstop),
      (to_pixels_holds _ Hover), (to_pixels_holds _ Hback),
      (to_pixels_holds _ Hq2).
    reflexivity.
  - intros D RETRY_TRIES RETRY_DELAY serial adb_connect install_uiautomator2
      sleep handle_adb_error point2str u2_touch self path Hpath Htries Hok.
    unfold drag_uiautomator2.
    destruct (pixel_path p1 p2 1 (Int64 0, Int64 15) zero_area zero_area
                swipe_duration shake_duration g) as [[e|path'] g'];
      cbn [fst] in Hpath; [discriminate|].
    injection Hpath as ->.
    destruct (@drag_along_answered D RETRY_TRIES RETRY_DELAY serial adb_connect
                install_uiautomator2 sleep handle_adb_error point2str u2_touch
                path self Htries Hok) as (self1 & ->).
    now exists self1.
Qed.

(** C8, as the code has it: every coordinate of every waypoint of the
    path is made by [int], which drops the fraction: the pixel lies
    between zero and the coordinate it is made from, less than one away
    from it (so it is the nearest integer only when the fraction is
    below one half); the hold times are passed on as they are.  The
    conversion raises, and no path is made, exactly when a coordinate
    is inf or nan. *)
Theorem drag_path_truncates_coordinates (p1 p2 : point) (segments : nat)
  (shake : point) (point_random shake_random : area)
  (swipe_duration shake_duration : Q) (g : G) :
  let raw :=
    fst (raw_path p1 p2 segments shake point_random shake_random
           swipe_duration shake_duration g) in
  let path :=
    fst (pixel_path p1 p2 segments shake point_random shake_random
           swipe_duration shake_duration g) in
  (forall pixels,
      path = inr pixels ->
      Forall2 (fun r w =>
                 coordinate_truncated (fst (fst r)) (fst (fst w)) /\
                 coordinate_truncated (snd (fst r)) (snd (fst w)) /\
                 snd w = snd r)
        raw pixels) /\
  ((exists e, path = inl e) <->
   Exists (fun r =>
             np_value (fst (fst r)) = None \/ np_value (snd (fst r)) = None)
     raw).
Proof.
  cbv zeta. unfold drag_path.
  destruct (raw_path p1 p2 segments shake point_random shake_random
              swipe_duration shake_duration g) as [raw g'].
  cbn [fst]. split; [|apply all_pixels_raises].
  intros pixels Hpath. apply all_pixels_some in Hpath.
  eapply Forall2_impl; [|exact Hpath].
  intros r w (Hx & Hy & Hd). cbn beta.
  split; [now apply np_int_truncates|].
  split; [now apply np_int_truncates | exact Hd].
Qed.

End Synthesizer.


(** ** The properties on the scripted device *)

Lemma tape_point_zero_draw (g : list point) :
  in_area zero_area (fst (Demo.tape_point zero_area g)).
Proof.
  assert (Hcorner : in_area zero_area (Int64 0, Int64 0)).
  { exists 0, 0. repeat split; apply Qle_refl. }
  destruct g as [|p rest]; cbn [Demo.tape_point zero_area fst];
    [exact Hcorner|].
  change (0, 0, 0, 0) with zero_area.
  destruct (Demo.inside zero_area p) eqn:Hin; [|exact Hcorner].
  unfold Demo.inside in Hin. cbn [in_area zero_area] in *.
  destruct (np_value (fst p)) as [x|]; [|discriminate].
  destruct (np_value (snd p)) as [y|]; [|discriminate].
  apply andb_prop in Hin. destruct Hin as (Hin & Hy1).
  apply andb_prop in Hin. destruct Hin as (Hin & Hy0).
  apply andb_prop in Hin. destruct Hin as (Hx0 & Hx1).
  exists x, y. rewrite <- !Qle_bool_iff. repeat split; assumption.
Qed.

Local Abbreviation demo_loop :=
  (retry_loop 3 Demo.serial Demo.adb_connect Demo.install_uiautomator2
     Demo.sleep Demo.handle_adb_error).
Local Abbreviation demo_app_start :=
  (app_start_uiautomator2 3 3 Demo.serial Demo.adb_connect
     Demo.install_uiautomator2 Demo.sleep Demo.handle_adb_error
     Demo.u2_app_start).
Local Abbreviation demo_drag_along :=
  (_drag_along 3 3 Demo.serial Demo.adb_connect Demo.install_uiautomator2
     Demo.sleep Demo.handle_adb_error Demo.point2str Demo.u2_touch).

Lemma retry_exhausts_after_retry_tries_witness :
  (forall self, exists e self1 acts,
      Demo.always_unknown self = (Raise e, self1, acts) /\
      spec_classify Demo.handle_adb_error e = Retryable) /\
  invocations (snd (Demo.retry 3 "click_uiautomator2" Demo.always_unknown [])) = 3%nat /\
  fst (fst (Demo.retry 3 "click_uiautomator2" Demo.always_unknown []))
  = Raise (raise_bare RequestHumanTakeover).
Proof.
  assert (Hfail : forall self, exists e self1 acts,
             Demo.always_unknown self = (Raise e, self1, acts) /\
             spec_classify Demo.handle_adb_error e = Retryable).
  { intros self. exists Demo.unknown, self, []. split; reflexivity. }
  split; [exact Hfail|].
  destruct (proj2 (@retry_exhausts_after_retry_tries _ 3%nat 3 Demo.serial
                     Demo.adb_connect Demo.install_uiautomator2 Demo.sleep
                     Demo.handle_adb_error _ Demo.always_unknown
                     "click_uiautomator2") Hfail [])
    as (Hinv & Hres & _).
  split; [exact Hinv | exact Hres].
Defined.

Lemma retry_round_follows_classifier_witness :
  Demo.click [Some Demo.reset] = (Raise Demo.reset, [], []) /\
  exists rec rest,
    snd (demo_loop Demo.click 2 [Some Demo.reset])
    = Invoke [] (Some Demo.reset) :: map Act rec ++ rest /\
    count_in is_reconnect rec = 1%nat.
Proof.
  split; [reflexivity|].
  destruct (@retry_round_follows_classifier _ 3 Demo.serial Demo.adb_connect
              Demo.install_uiautomator2 Demo.sleep Demo.handle_adb_error _
              Demo.click 1 [Some Demo.reset] [] Demo.reset [] eq_refl)
    as (rec & self2 & rest & Htr & Hrec & _).
  exists rec, rest. split; [exact Htr | exact Hrec].
Defined.

Lemma retry_stops_on_human_takeover_witness :
  snd (Demo.retry 3 "click_uiautomator2" Demo.click
         [Some Demo.unknown; Some Demo.takeover; None])
  = [Invoke [] (Some Demo.unknown); Act (LogException Demo.unknown);
     Act (Sleep 3)]
      ++ Invoke [] (Some Demo.takeover)
      :: [Act (LogCritical "Retry click_uiautomator2() failed")] /\
  exn_cls Demo.takeover = RequestHumanTakeover /\
  invocations (snd (Demo.retry 3 "click_uiautomator2" Demo.click
                      [Some Demo.unknown; Some Demo.takeover; None])) = 2%nat.
Proof.
  split; [reflexivity|]. split; [reflexivity|].
  destruct (@retry_stops_on_human_takeover _ 3%nat 3 Demo.serial
              Demo.adb_connect Demo.install_uiautomator2 Demo.sleep
              Demo.handle_adb_error _ Demo.click "click_uiautomator2"
              [Some Demo.unknown; Some Demo.takeover; None]
              [Invoke [] (Some Demo.unknown); Act (LogException Demo.unknown);
               Act (Sleep 3)]
              [Act (LogCritical "Retry click_uiautomator2() failed")]
              [] Demo.takeover eq_refl eq_refl)
    as (_ & _ & _ & Hinv & _).
  exact Hinv.
Defined.

Lemma retry_escalation_is_bare_signal_witness :
  fst (fst (Demo.retry 1 "click_uiautomator2" Demo.always_unknown []))
  = Raise (raise_bare RequestHumanTakeover) /\
  exn_args (raise_bare RequestHumanTakeover) = [] /\
  count_act is_critical
    (snd (Demo.retry 1 "click_uiautomator2" Demo.always_unknown [])) = 1%nat.
Proof.
  split; [reflexivity|].
  destruct (@retry_escalation_is_bare_signal _ 1%nat 3 Demo.serial
              Demo.adb_connect Demo.install_uiautomator2 Demo.sleep
              Demo.handle_adb_error _ Demo.always_unknown "click_uiautomator2"
              [] (raise_bare RequestHumanTakeover) eq_refl)
    as (_ & Hargs & _ & Hcrit).
  split; [exact Hargs | exact Hcrit].
Defined.

(** C4, as the specification words it, fails: the signal raised for the
    action [click_uiautomator2] has no argument, so it does not carry
    that label. *)
Lemma retry_signal_carries_no_label :
  exists e,
    fst (fst (Demo.retry 1 "click_uiautomator2" Demo.always_unknown [])) = Raise e /\
    exn_cls e = RequestHumanTakeover /\
    ~ carries_label e "click_uiautomator2".
Proof.
  exists (raise_bare RequestHumanTakeover).
  split; [reflexivity|]. split; [reflexivity|].
  intros (arg & pre & post & Hin & _). exact Hin.
Qed.

Lemma app_start_package_not_found_escalates_witness :
  (0 < 3)%nat /\
  Demo.u2_app_start "com.example.missing"
    [Some (package_not_found "com.example.missing")]
  = (Some (package_not_found "com.example.missing"), []) /\
  fst (fst (demo_app_start "com.example.missing"
              [Some (package_not_found "com.example.missing")]))
  = Raise (raise_bare RequestHumanTakeover) /\
  invocations (snd (demo_app_start "com.example.missing"
                      [Some (package_not_found "com.example.missing")])) = 1%nat.
Proof.
  split; [lia|]. split; [reflexivity|].
  rewrite (@app_start_package_not_found_escalates _ 3%nat 3 Demo.serial
             Demo.adb_connect Demo.install_uiautomator2 Demo.sleep
             Demo.handle_adb_error Demo.u2_app_start "com.example.missing"
             [Some (package_not_found "com.example.missing")] []
             ltac:(lia) eq_refl).
  split; reflexivity.
Defined.

Lemma app_start_any_base_error_escalates_witness :
  Demo.u2_app_start "com.bilibili.azurlane"
    [Some (Exn U2BaseError ["uiautomator2 connect error"%string]); None]
  = (Some (Exn U2BaseError ["uiautomator2 connect error"%string]), [None]) /\
  exn_cls (Exn U2BaseError ["uiautomator2 connect error"%string]) = U2BaseError /\
  (0 < 3)%nat /\
  calls_in_invocations is_app_start
    (snd (demo_app_start "com.bilibili.azurlane"
            [Some (Exn U2BaseError ["uiautomator2 connect error"%string]); None]))
  = 1%nat.
Proof.
  split; [reflexivity|]. split; [reflexivity|]. split; [lia|].
  destruct (proj2 (@app_start_any_base_error_escalates _ 3%nat 3 Demo.serial
                     Demo.adb_connect Demo.install_uiautomator2 Demo.sleep
                     Demo.handle_adb_error Demo.u2_app_start
                     "com.bilibili.azurlane"
                     [Some (Exn U2BaseError ["uiautomator2 connect error"%string]);
                      None]
                     [None] _ eq_refl eq_refl) ltac:(lia))
    as (_ & _ & Hcalls & _).
  exact Hcalls.
Defined.

Lemma drag_along_restarts_whole_path_witness :
  (2 <= List.length Demo.example_path)%nat /\
  touch_fails Demo.sleep Demo.u2_touch (List.length Demo.example_path) 0
    Demo.example_path [None; Some Demo.reset] 1 Demo.reset [] /\
  spec_classify Demo.handle_adb_error Demo.reset = ReconnectAndRetry /\
  touches_succeed Demo.sleep Demo.u2_touch (List.length Demo.example_path) 0
    Demo.example_path [] /\
  demo_drag_along Demo.example_path [None; Some Demo.reset]
  = (Return tt, [],
     [ Invoke [ Touch Down 403 421; LogInfo "(x, y) down"; Sleep (1 # 5);
                Touch Move 821 326 ] (Some Demo.reset);
       Act (LogError Demo.reset); Act (AdbConnect "127.0.0.1:5555");
       Act (Sleep 3);
       Invoke [ Touch Down 403 421; LogInfo "(x, y) down"; Sleep (1 # 5);
                Touch Move 821 326; LogInfo "(x, y) move"; Sleep (1 # 10);
                Touch Move 821 316; LogInfo "(x, y) move"; Sleep (1 # 10);
                Touch Move 821 336; LogInfo "(x, y) move"; Sleep (1 # 10);
                Touch Up 821 326; LogInfo "(x, y) up"; Sleep 0 ] None ]).
Proof.
  assert (Hlen : (2 <= List.length Demo.example_path)%nat) by (simpl; lia).
  assert (Hfail :
    touch_fails Demo.sleep Demo.u2_touch (List.length Demo.example_path) 0
      Demo.example_path [None; Some Demo.reset] 1 Demo.reset []).
  { simpl. exists [Some Demo.reset]. split; reflexivity. }
  assert (Hok :
    touches_succeed Demo.sleep Demo.u2_touch (List.length Demo.example_path) 0
      Demo.example_path []).
  { simpl. repeat (exists []; split; [reflexivity|]). exact I. }
  split; [exact Hlen|]. split; [exact Hfail|]. split; [reflexivity|].
  split; [exact Hok|].
  destruct (@drag_along_restarts_whole_path _ 3%nat 3 Demo.serial
              Demo.adb_connect Demo.install_uiautomator2 Demo.sleep
              Demo.handle_adb_error Demo.point2str Demo.u2_touch
              Demo.example_path Hlen)
    as (first & mid & last & _ & _ & _ & _ & _ & Hretry & _).
  destruct (Hretry [None; Some Demo.reset] 1%nat Demo.reset []
              Hfail ltac:(discriminate) ltac:(discriminate) ltac:(lia))
    as (rec & self2 & Hd & _ & Hdone).
  injection Hd as <- <-.
  destruct (Hdone Hok) as (self3 & Hrun).
  assert (Hs : self3 = []).
  { apply (f_equal (fun r => snd (fst r))) in Hrun. exact (eq_sym Hrun). }
  rewrite Hrun, Hs. reflexivity.
Defined.

Lemma drag_single_segment_has_five_waypoints_witness :
  (forall g, in_area zero_area (fst (Demo.tape_point zero_area g))) /\
  pholds (Int64 100, Int64 200) 100 200 /\
  pholds (Float64 300, Int64 400) 300 400 /\
  fst (drag_path Demo.tape_point (Int64 100, Int64 200)
         (Float64 300, Int64 400) 1 (Int64 0, Int64 15)
         zero_area zero_area (1 # 4) (1 # 10) [(Int64 7, Int64 (-3))])
  = inr [(100, 200, 1 # 4); (300, 400, 1 # 4); (300, 415, 1 # 10);
          (300, 385, 1 # 10); (300, 400, 1 # 10)]%Z.
Proof.
  assert (H1 : pholds (Int64 100, Int64 200) 100 200) by (split; reflexivity).
  assert (H2 : pholds (Float64 300, Int64 400) 300 400) by (split; reflexivity).
  split; [exact tape_point_zero_draw|]. split; [exact H1|]. split; [exact H2|].
  destruct (@drag_single_segment_has_five_waypoints _ Demo.tape_point
              tape_point_zero_draw (Int64 100, Int64 200)
              (Float64 300, Int64 400) (1 # 4) (1 # 10)
              [(Int64 7, Int64 (-3))])
    as (_ & Hwhole & _).
  rewrite (Hwhole 100 200 300 400 H1 H2 ltac:(small_numbers)
             ltac:(small_numbers) ltac:(small_numbers) ltac:(small_numbers)
             ltac:(small_numbers))%Z.
  reflexivity.
Defined.

Lemma drag_path_truncates_coordinates_witness :
  fst (drag_path Demo.tape_point (Int64 0, Int64 0) (Float64 (11 # 4), Int64 0)
         1 (Int64 0, Int64 15) zero_area zero_area (1 # 4) (1 # 10) [])
  = inr [(0, 0, 1 # 4); (2, 0, 1 # 4); (2, 15, 1 # 10);
          (2, -15, 1 # 10); (2, 0, 1 # 10)]%Z /\
  Forall2 (fun r w =>
             coordinate_truncated (fst (fst r)) (fst (fst w)) /\
             coordinate_truncated (snd (fst r)) (snd (fst w)) /\
             snd w = snd r)
    (fst (drag_raw_path Demo.tape_point (Int64 0, Int64 0)
            (Float64 (11 # 4), Int64 0) 1 (Int64 0, Int64 15)
            zero_area zero_area (1 # 4) (1 # 10) []))
    [(0, 0, 1 # 4); (2, 0, 1 # 4); (2, 15, 1 # 10);
     (2, -15, 1 # 10); (2, 0, 1 # 10)]%Z.
Proof.
  assert (Hpath :
    fst (drag_path Demo.tape_point (Int64 0, Int64 0)
           (Float64 (11 # 4), Int64 0) 1 (Int64 0, Int64 15) zero_area
           zero_area (1 # 4) (1 # 10) [])
    = inr [(0, 0, 1 # 4); (2, 0, 1 # 4); (2, 15, 1 # 10);
            (2, -15, 1 # 10); (2, 0, 1 # 10)]%Z)
    by (vm_compute; reflexivity).
  split; [exact Hpath|].
  exact (proj1 (@drag_path_truncates_coordinates _ Demo.tape_point
                  (Int64 0, Int64 0) (Float64 (11 # 4), Int64 0) 1%nat
                  (Int64 0, Int64 15) zero_area zero_area (1 # 4) (1 # 10) [])
           _ Hpath).
Defined.

(** C8, as the specification words it, fails: dragging to
    [(2.75, 0)] ends on pixel [2], while [3] is nearer to [2.75]. *)
Lemma drag_path_does_not_round_to_nearest :
  exists pixels,
    fst (drag_path Demo.tape_point (Int64 0, Int64 0)
           (Float64 (11 # 4), Int64 0) 1 (Int64 0, Int64 15)
           zero_area zero_area (1 # 4) (1 # 10) [])
    = inr pixels /\
    ~ rounds_to_nearest
        (fst (drag_raw_path Demo.tape_point (Int64 0, Int64 0)
                (Float64 (11 # 4), Int64 0) 1 (Int64 0, Int64 15)
                zero_area zero_area (1 # 4) (1 # 10) []))
        pixels.
Proof.
  eexists. split; [vm_compute; reflexivity|].
  unfold rounds_to_nearest. intros H.
  assert (Hlast : exists c, c == 11 # 4 /\ nearest_int c 2).
  { match type of H with
    | Forall2 ?P ?raw ?pix =>
        let raw' := eval vm_compute in raw in
        change (Forall2 P raw' pix) in H
    end.
    do 4 (apply Forall2_cons_iff in H; destruct H as (_ & H)).
    apply Forall2_cons_iff in H. destruct H as (((c & Hc & Hx) & _) & _).
    cbn [fst snd np_value] in Hc. injection Hc as <-.
    eexists. split; [|exact Hx]. reflexivity. }
  destruct Hlast as (c & Hc & Hlast).
  specialize (Hlast 3%Z). rewrite Hc in Hlast.
  vm_compute in Hlast. apply Hlast. reflexivity.
Qed.

(** * Further properties of the retry wrapper *)

Lemma raised_count_app (p : exn_class -> bool) (tr1 tr2 : list event) :
  raised_count p (tr1 ++ tr2) = (raised_count p tr1 + raised_count p tr2)%nat.
Proof.
  unfold raised_count. now rewrite filter_app, length_app.
Qed.

Lemma raised_count_acts (p : exn_class -> bool) (rec : list action) :
  raised_count p (map Act rec) = 0%nat.
Proof.
  unfold raised_count. induction rec as [|a rec IH]; simpl; auto.
Qed.

Lemma raised_count_invoke (p : exn_class -> bool) (acts : list action)
  (e : exn) (tr : list event) :
  raised_count p (Invoke acts (Some e) :: tr)
  = ((if p (exn_cls e) then 1 else 0) + raised_count p tr)%nat.
Proof.
  unfold raised_count. simpl. destruct (p (exn_cls e)); reflexivity.
Qed.

Lemma raised_count_act (p : exn_class -> bool) (a : action) (tr : list event) :
  raised_count p (Act a :: tr) = raised_count p tr.
Proof. reflexivity. Qed.

Lemma slept_app (tr1 tr2 : list event) :
  slept (tr1 ++ tr2) == slept tr1 + slept tr2.
Proof.
  induction tr1 as [|[acts r|a] tr1 IH]; simpl.
  - ring.
  - exact IH.
  - destruct a; try exact IH. rewrite IH. ring.
Qed.

Lemma slept_quiet (rec : list action) :
  count_in is_sleep rec = 0%nat -> slept (map Act rec) == 0.
Proof.
  induction rec as [|a rec IH]; intros H; simpl; [reflexivity|].
  destruct a; try (apply IH; exact H). discriminate.
Qed.

Section RetryAccounting.

Variable D : Type.
Variable RETRY_TRIES : nat.
Variable RETRY_DELAY : Q.
Variable serial : D -> string.
Variable adb_connect : string -> D -> D.
Variable install_uiautomator2 : D -> D.
Variable sleep : Q -> D -> D.
Variable handle_adb_error : exn -> bool.
Variable A : Type.
Variable func : M D A.

Local Abbreviation dispatch :=
  (except_dispatch serial adb_connect install_uiautomator2 handle_adb_error).
Local Abbreviation loop :=
  (retry_loop RETRY_DELAY serial adb_connect install_uiautomator2 sleep
     handle_adb_error).
Local Abbreviation wrapper :=
  (retry RETRY_TRIES RETRY_DELAY serial adb_connect install_uiautomator2 sleep
     handle_adb_error).
Local Abbreviation classify := (spec_classify handle_adb_error).
Local Abbreviation step_raise :=
  (retry_loop_raise RETRY_DELAY serial adb_connect install_uiautomator2 sleep
     handle_adb_error func).
Local Abbreviation step_return :=
  (retry_loop_return RETRY_DELAY serial adb_connect install_uiautomator2 sleep
     handle_adb_error func).
Local Abbreviation of_loop :=
  (retry_of_loop RETRY_TRIES RETRY_DELAY serial adb_connect
     install_uiautomator2 sleep handle_adb_error func).

(** What each clause calls, by the class of the exception. *)
Lemma except_dispatch_calls (e : exn) (self : D) :
  count_in is_sleep (snd (dispatch e self)) = 0%nat /\
  count_in is_reconnect (snd (dispatch e self))
  = (if is_connection_reset (exn_cls e) then 1 else 0)%nat /\
  count_in is_reinstall (snd (dispatch e self))
  = (if is_json_decode (exn_cls e) then 1 else 0)%nat /\
  count_in is_handle_adb_error (snd (dispatch e self))
  = (if is_adb_or_runtime (exn_cls e) then 1 else 0)%nat /\
  count_in is_possible_reasons (snd (dispatch e self))
  = (if is_assertion (exn_cls e) then 1 else 0)%nat.
Proof.
  rewrite except_dispatch_by_class.
  destruct e as [c args]; destruct c; repeat split.
Qed.

(** A count of wrapper calls that each clause run raises by one exactly
    for the classes in [pc] equals the count of invocations that raised
    such a class. *)
Lemma retry_loop_calls_match (pa : action -> bool) (pc : exn_class -> bool) :
  (forall e self,
      count_in pa (snd (dispatch e self))
      = (if pc (exn_cls e) then 1 else 0)%nat) ->
  pa (Sleep RETRY_DELAY) = false ->
  forall n self,
    count_act pa (snd (loop func n self))
    = raised_count pc (snd (loop func n self)).
Proof.
  intros Hpa Hsleep. induction n as [|n IH]; intros self; [reflexivity|].
  destruct (func self) as [[[a|e] self1] acts] eqn:Hf.
  - rewrite (step_return n self Hf). reflexivity.
  - destruct (dispatch e self1) as [[fl self2] rec] eqn:Hd.
    pose proof (Hpa e self1) as Hrec. rewrite Hd in Hrec. cbn [snd] in Hrec.
    rewrite (step_raise n self Hf Hd).
    destruct fl; cbv zeta; cbn [snd];
      rewrite count_act_invoke, raised_count_invoke.
    + rewrite count_act_app, raised_count_app, count_act_acts,
        raised_count_acts, count_act_act, raised_count_act, Hsleep, Hrec, IH.
      lia.
    + rewrite count_act_acts, raised_count_acts, Hrec. lia.
    + rewrite count_act_acts, raised_count_acts, Hrec. lia.
Qed.

(** X1: every failed attempt gets exactly the recovery its class asks
    for: over a whole run of the wrapper, [adb_connect] is called once
    per invocation that raised [ConnectionResetError],
    [install_uiautomator2] once per invocation that raised
    [JSONDecodeError], [handle_adb_error] once per invocation that
    raised [AdbError] or [RuntimeError], and the enable-ADB hint is
    given once per invocation that raised [AssertionError]. *)
Theorem retry_recovery_calls_match_failures (name : string) (self : D) :
  count_act is_reconnect (snd (wrapper name func self))
  = raised_count is_connection_reset (snd (wrapper name func self)) /\
  count_act is_reinstall (snd (wrapper name func self))
  = raised_count is_json_decode (snd (wrapper name func self)) /\
  count_act is_handle_adb_error (snd (wrapper name func self))
  = raised_count is_adb_or_runtime (snd (wrapper name func self)) /\
  count_act is_possible_reasons (snd (wrapper name func self))
  = raised_count is_assertion (snd (wrapper name func self)).
Proof.
  assert (Hall : forall (pa : action -> bool) (pc : exn_class -> bool),
             (forall e s, count_in pa (snd (dispatch e s))
                          = (if pc (exn_cls e) then 1 else 0)%nat) ->
             pa (Sleep RETRY_DELAY) = false ->
             pa (LogCritical (retry_failed_message name)) = false ->
             count_act pa (snd (wrapper name func self))
             = raised_count pc (snd (wrapper name func self))).
  { intros pa pc Hpa Hs Hc. rewrite of_loop. cbv zeta.
    pose proof (retry_loop_calls_match pa pc Hpa Hs RETRY_TRIES self) as Hl.
    destruct (fst (fst (loop func RETRY_TRIES self))); cbn [snd]; auto;
      rewrite count_act_app, raised_count_app, count_act_act, Hc, Hl;
      reflexivity. }
  repeat split; apply Hall; try reflexivity; intros e s;
    apply (except_dispatch_calls e s).
Qed.

(** The loop sleeps the delay after every failed attempt it goes on
    from, the last one of the range included. *)
Lemma retry_loop_sleeps (n : nat) :
  forall self,
    slept (snd (loop func n self))
    == inject_Z (Z.of_nat (count_act is_sleep (snd (loop func n self))))
       * RETRY_DELAY /\
    match fst (fst (loop func n self)) with
    | Exhausted =>
        invocations (snd (loop func n self)) = n /\
        count_act is_sleep (snd (loop func n self)) = n
    | Returned _ | Broke =>
        invocations (snd (loop func n self))
        = S (count_act is_sleep (snd (loop func n self))) /\
        (invocations (snd (loop func n self)) <= n)%nat
    | Uncaught _ => False
    end.
Proof.
  induction n as [|n IH]; intros self.
  - split; [reflexivity | split; reflexivity].
  - destruct (func self) as [[[a|e] self1] acts] eqn:Hf.
    + rewrite (step_return n self Hf). cbn [fst snd].
      split; [reflexivity|]. split; [reflexivity|].
      rewrite invocations_invoke, invocations_nil. lia.
    + destruct (dispatch e self1) as [[fl self2] rec] eqn:Hd.
      destruct (except_dispatch_calls e self1) as (Hns & _).
      pose proof (except_dispatch_caught serial adb_connect
                    install_uiautomator2 handle_adb_error e self1) as Hc.
      rewrite Hd in Hns, Hc. cbn [snd fst] in Hns, Hc.
      rewrite (step_raise n self Hf Hd).
      destruct fl; cbv zeta; cbn [fst snd]; [| |now elim Hc].
      * destruct (IH (sleep RETRY_DELAY self2)) as (Hs & Hm).
        rewrite invocations_invoke, invocations_app, invocations_acts,
          invocations_act, count_act_invoke, count_act_app, count_act_acts,
          count_act_act, Hns.
        cbn [is_sleep slept]. split.
        -- rewrite slept_app, (slept_quiet rec Hns). cbn [slept]. rewrite Hs.
           rewrite !Nat2Z.inj_add, !inject_Z_plus. cbn [Nat.add Z.of_nat]. ring.
        -- destruct (fst (fst (loop func n (sleep RETRY_DELAY self2))));
             cbn [Nat.add]; try exact Hm; destruct Hm as (H1 & H2);
             split; lia.
      * rewrite invocations_invoke, invocations_acts, count_act_invoke,
          count_act_acts, Hns.
        cbn [slept]. split; [|split; lia].
        rewrite (slept_quiet rec Hns). cbn [Z.of_nat]. ring.
Qed.

(** X2: the wrapper sleeps [RETRY_DELAY] once after every failed attempt
    it retries, also after the last attempt of the range: the seconds
    it sleeps are the number of its sleeps times [RETRY_DELAY], that
    number is at most the number of invocations, which is at most
    [RETRY_TRIES]; when the wrapper returns a value there is one sleep
    less than invocations, and when the loop runs out there are
    [RETRY_TRIES] of each. *)
Theorem retry_sleeps_once_per_retried_failure (name : string) (self : D) :
  let tr := snd (wrapper name func self) in
  slept tr == inject_Z (Z.of_nat (count_act is_sleep tr)) * RETRY_DELAY /\
  (count_act is_sleep tr <= invocations tr)%nat /\
  (invocations tr <= S (count_act is_sleep tr))%nat /\
  (invocations tr <= RETRY_TRIES)%nat /\
  (forall a, fst (fst (wrapper name func self)) = Return a ->
             invocations tr = S (count_act is_sleep tr)) /\
  (fst (fst (loop func RETRY_TRIES self)) = Exhausted ->
   invocations tr = RETRY_TRIES /\ count_act is_sleep tr = RETRY_TRIES).
Proof.
  cbv zeta. rewrite of_loop. cbv zeta.
  destruct (retry_loop_sleeps RETRY_TRIES self) as (Hs & Hm).
  destruct (fst (fst (loop func RETRY_TRIES self))) as [a| | |e];
    cbn [fst snd]; [| | |now elim Hm]; destruct Hm as (H1 & H2);
    rewrite ?slept_app, ?invocations_app, ?count_act_app, ?count_act_act,
      ?invocations_act, ?invocations_nil, ?count_act_nil;
    cbn [is_sleep slept]; rewrite ?Nat.add_0_r;
    (split; [rewrite Hs; ring|]);
    repeat split; try lia; try discriminate; intros; lia.
Qed.

End RetryAccounting.

Lemma count_in_sleep_dispatch (D : Type) (serial : D -> string)
  (adb_connect : string -> D -> D) (install_uiautomator2 : D -> D)
  (handle_adb_error : exn -> bool) (e : exn) (self : D) :
  count_in is_sleep
    (snd (except_dispatch serial adb_connect install_uiautomator2
            handle_adb_error e self)) = 0%nat.
Proof.
  rewrite except_dispatch_by_class.
  destruct e as [c args]; destruct c; reflexivity.
Qed.

Section RetryOutcomes.

Variable D : Type.
Variable RETRY_TRIES : nat.
Variable RETRY_DELAY : Q.
Variable serial : D -> string.
Variable adb_connect : string -> D -> D.
Variable install_uiautomator2 : D -> D.
Variable sleep : Q -> D -> D.
Variable handle_adb_error : exn -> bool.
Variable A : Type.
Variable func : M D A.

Local Abbreviation dispatch :=
  (except_dispatch serial adb_connect install_uiautomator2 handle_adb_error).
Local Abbreviation loop :=
  (retry_loop RETRY_DELAY serial adb_connect install_uiautomator2 sleep
     handle_adb_error).
Local Abbreviation wrapper :=
  (retry RETRY_TRIES RETRY_DELAY serial adb_connect install_uiautomator2 sleep
     handle_adb_error).
Local Abbreviation classify := (spec_classify handle_adb_error).
Local Abbreviation step_raise :=
  (retry_loop_raise RETRY_DELAY serial adb_connect install_uiautomator2 sleep
     handle_adb_error func).
Local Abbreviation step_return :=
  (retry_loop_return RETRY_DELAY serial adb_connect install_uiautomator2 sleep
     handle_adb_error func).
Local Abbreviation of_loop :=
  (retry_of_loop RETRY_TRIES RETRY_DELAY serial adb_connect
     install_uiautomator2 sleep handle_adb_error func).

Lemma not_returned_acts (rec : list action) :
  Forall not_returned (map Act rec).
Proof.
  apply Forall_forall. intros ev Hin. apply in_map_iff in Hin.
  destruct Hin as (a & <- & _). intros acts. discriminate.
Qed.

(** The loop returns exactly when an invocation returns, and that
    invocation is the last thing it does. *)
Lemma retry_loop_returned (n : nat) :
  forall self,
    match fst (fst (loop func n self)) with
    | Returned a =>
        exists pre acts s,
          snd (loop func n self) = pre ++ [Invoke acts None] /\
          func s = (Return a, snd (fst (loop func n self)), acts) /\
          Forall not_returned pre
    | _ => Forall not_returned (snd (loop func n self))
    end.
Proof.
  induction n as [|n IH]; intros self; [constructor|].
  destruct (func self) as [[[a|e] self1] acts] eqn:Hf.
  - rewrite (step_return n self Hf). cbn [fst snd].
    exists [], acts, self. repeat split; auto.
  - destruct (dispatch e self1) as [[fl self2] rec] eqn:Hd.
    rewrite (step_raise n self Hf Hd).
    assert (Hinv : not_returned (Invoke acts (Some e)))
      by (intros acts'; discriminate).
    pose proof (not_returned_acts rec) as Hrec.
    destruct fl; cbv zeta; cbn [fst snd];
      [| constructor; assumption | constructor; assumption].
    specialize (IH (sleep RETRY_DELAY self2)).
    assert (Hsleep : not_returned (Act (Sleep RETRY_DELAY)))
      by (intros acts'; discriminate).
    destruct (fst (fst (loop func n (sleep RETRY_DELAY self2)))) as [a| | |e0].
    + destruct IH as (pre & acts' & s & -> & Hs & Hpre).
      exists (Invoke acts (Some e) :: map Act rec
                ++ Act (Sleep RETRY_DELAY) :: pre), acts', s.
      split; [|split; [exact Hs|]].
      * cbn [app]. f_equal. rewrite <- app_assoc. reflexivity.
      * constructor; [exact Hinv|]. apply Forall_app. split; [exact Hrec|].
        constructor; assumption.
    + constructor; [exact Hinv|]. apply Forall_app. split; [exact Hrec|].
      constructor; assumption.
    + constructor; [exact Hinv|]. apply Forall_app. split; [exact Hrec|].
      constructor; assumption.
    + constructor; [exact Hinv|]. apply Forall_app. split; [exact Hrec|].
      constructor; assumption.
Qed.

(** X3: the wrapper returns a value exactly when an invocation returned:
    then that invocation is the last entry of the trace, the value and
    the final device state are the ones it gave, every earlier
    invocation raised, and no critical line is logged; and when the
    wrapper raises, no invocation has returned. *)
Theorem retry_returns_what_last_invocation_returned (name : string) (self : D) :
  (forall a,
      fst (fst (wrapper name func self)) = Return a ->
      exists pre acts s,
        snd (wrapper name func self) = pre ++ [Invoke acts None] /\
        func s = (Return a, snd (fst (wrapper name func self)), acts) /\
        Forall not_returned pre /\
        count_act is_critical (snd (wrapper name func self)) = 0%nat) /\
  (forall e,
      fst (fst (wrapper name func self)) = Raise e ->
      Forall not_returned (snd (wrapper name func self))).
Proof.
  rewrite of_loop. cbv zeta.
  pose proof (retry_loop_returned RETRY_TRIES self) as Hl.
  pose proof (retry_loop_quiet RETRY_DELAY serial adb_connect
                install_uiautomator2 sleep handle_adb_error func
                RETRY_TRIES self) as Hq.
  assert (Hcrit : not_returned (Act (LogCritical (retry_failed_message name))))
    by (intros acts'; discriminate).
  destruct (fst (fst (loop func RETRY_TRIES self))) as [a| | |e0];
    cbn [fst snd]; split; try discriminate.
  - intros a' Ha. injection Ha as <-.
    destruct Hl as (pre & acts & s & Htr & Hs & Hpre).
    exists pre, acts, s. repeat split; auto.
  - intros e _. apply Forall_app. split; [exact Hl | now constructor].
  - intros e _. apply Forall_app. split; [exact Hl | now constructor].
  - intros e _. exact Hl.
Qed.

(** An attempt whose error the classifier calls fatal is the last one. *)
Lemma retry_loop_fatal_last (n : nat) :
  forall self pre acts e post,
    snd (loop func n self) = pre ++ Invoke acts (Some e) :: post ->
    classify e = Fatal ->
    fst (fst (loop func n self)) = Broke /\
    exists rec, post = map Act rec /\
                count_in is_sleep rec = 0%nat /\
                count_in is_reconnect rec = 0%nat /\
                count_in is_reinstall rec = 0%nat.
Proof.
  induction n as [|n IH]; intros self pre acts e post Htr He.
  - simpl in Htr. destruct pre; discriminate.
  - destruct (func self) as [[[a|e0] self1] acts0] eqn:Hf.
    + rewrite (step_return n self Hf) in Htr. simpl in Htr.
      destruct pre as [|ev [|ev' pre]]; discriminate.
    + destruct (dispatch e0 self1) as [[fl self2] rec] eqn:Hd.
      rewrite (step_raise n self Hf Hd) in *.
      destruct pre as [|ev pre].
      * assert (e0 = e) as -> by (destruct fl; simpl in Htr; congruence).
        destruct (except_dispatch_outcome serial adb_connect
                    install_uiautomator2 handle_adb_error e self1)
          as (rec' & _ & Ho).
        rewrite He in Ho. destruct Ho as (Hd' & Hrc & Hri).
        rewrite Hd in Hd'. injection Hd' as -> -> ->.
        simpl in Htr. injection Htr as <-. split; [reflexivity|].
        exists rec'. repeat split; auto.
        pose proof (count_in_sleep_dispatch serial adb_connect
                      install_uiautomator2 handle_adb_error e self1) as Hs.
        rewrite Hd in Hs. exact Hs.
      * assert (fl = Continue /\
                  pre ++ Invoke acts (Some e) :: post
                  = map Act rec ++ Act (Sleep RETRY_DELAY)
                      :: snd (loop func n (sleep RETRY_DELAY self2)))
          as (-> & Htl).
        { destruct fl; simpl in Htr; injection Htr as _ Htr; symmetry in Htr.
          - split; [reflexivity | exact Htr].
          - exfalso. rewrite <- (app_nil_r (map Act rec)) in Htr.
            destruct (@invoke_behind_acts _ _ _ _ _ _ Htr) as (pre' & _ & Hnil).
            destruct pre'; discriminate.
          - exfalso. rewrite <- (app_nil_r (map Act rec)) in Htr.
            destruct (@invoke_behind_acts _ _ _ _ _ _ Htr) as (pre' & _ & Hnil).
            destruct pre'; discriminate. }
        destruct (@invoke_behind_acts _ _ _ _ _ _ Htl) as (pre' & -> & Htl').
        destruct pre' as [|ev' pre']; simpl in Htl'; [discriminate|].
        injection Htl' as -> Htl'.
        destruct (IH _ _ _ _ _ (eq_sym Htl') He) as (Hb & Hrec).
        cbv zeta. cbn [fst]. split; [exact Hb | exact Hrec].
Qed.

(** An invocation found in the wrapper's trace is one of the loop's. *)
Lemma retry_trace_in_loop (name : string) (self : D) (pre post : list event)
  (acts : list action) (r : option exn) :
  snd (wrapper name func self) = pre ++ Invoke acts r :: post ->
  exists post',
    snd (loop func RETRY_TRIES self) = pre ++ Invoke acts r :: post' /\
    (fst (fst (loop func RETRY_TRIES self)) = Broke ->
     post = post' ++ [Act (LogCritical (retry_failed_message name))]).
Proof.
  intros Htr. rewrite of_loop in Htr. cbv zeta in Htr.
  pose proof (retry_loop_caught RETRY_DELAY serial adb_connect
                install_uiautomator2 sleep handle_adb_error func
                RETRY_TRIES self) as Hc.
  destruct (fst (fst (loop func RETRY_TRIES self))) as [a| | |e0] eqn:Hx;
    cbn [snd] in Htr.
  - exists post. split; [exact Htr | discriminate].
  - destruct (exists_last (l := Invoke acts r :: post))
      as (front & ev & Hlast); [discriminate|].
    rewrite Hlast, app_assoc in Htr. apply app_inj_tail in Htr.
    destruct Htr as (Htr & <-).
    destruct front as [|ev0 front]; simpl in Hlast; [discriminate|].
    injection Hlast as <- ->.
    exists front. split; [exact Htr | reflexivity].
  - destruct (exists_last (l := Invoke acts r :: post))
      as (front & ev & Hlast); [discriminate|].
    rewrite Hlast, app_assoc in Htr. apply app_inj_tail in Htr.
    destruct Htr as (Htr & <-).
    destruct front as [|ev0 front]; simpl in Hlast; [discriminate|].
    injection Hlast as <- ->.
    exists front. split; [exact Htr | discriminate].
  - now elim (Hc e0).
Qed.

(** X4: an attempt that fails with an error the classifier calls fatal
    (a handshake assertion, or a transport or runtime error the helper
    gives up on) is the last one, at whatever round it happens: after it
    the wrapper only runs that clause's own logging, makes no recovery
    call, sleeps no delay, logs the critical line and raises
    [RequestHumanTakeover]. *)
Theorem retry_stops_on_fatal_error (name : string) (self : D)
  (pre post : list event) (acts : list action) (e : exn) :
  snd (wrapper name func self) = pre ++ Invoke acts (Some e) :: post ->
  classify e = Fatal ->
  fst (fst (wrapper name func self)) = Raise (raise_bare RequestHumanTakeover) /\
  invocations (snd (wrapper name func self)) = S (invocations pre) /\
  exists rec,
    post = map Act rec ++ [Act (LogCritical (retry_failed_message name))] /\
    count_in is_sleep rec = 0%nat /\
    count_in is_reconnect rec = 0%nat /\
    count_in is_reinstall rec = 0%nat.
Proof.
  intros Htr He.
  destruct (retry_trace_in_loop name self pre post acts (Some e) Htr)
    as (post' & Hl & Hpost).
  destruct (@retry_loop_fatal_last _ _ _ _ _ _ Hl He)
    as (Hb & rec & -> & Hs & Hrc & Hri).
  specialize (Hpost Hb). subst post.
  rewrite of_loop. cbv zeta. rewrite Hb, Hl. cbn [fst snd].
  split; [reflexivity|]. split.
  - rewrite !invocations_app, invocations_invoke, invocations_acts,
      invocations_act, invocations_nil. lia.
  - exists rec. repeat split; auto.
Qed.

(** A run of the loop that did not run out is the same under any larger
    bound. *)
Lemma retry_loop_stable (n : nat) :
  forall self,
    fst (fst (loop func n self)) <> Exhausted ->
    forall m, loop func (n + m) self = loop func n self.
Proof.
  induction n as [|n IH]; intros self Hne m; [now elim Hne|].
  change (S n + m)%nat with (S (n + m)).
  destruct (func self) as [[[a|e] self1] acts] eqn:Hf.
  - now rewrite (step_return n self Hf), (step_return (n + m) self Hf).
  - destruct (dispatch e self1) as [[fl self2] rec] eqn:Hd.
    rewrite (step_raise n self Hf Hd) in *.
    rewrite (step_raise (n + m) self Hf Hd).
    destruct fl; try reflexivity.
    cbv zeta in *. cbn [fst] in Hne. now rewrite (IH _ Hne m).
Qed.

(** X5: a larger retry bound changes nothing for a run that did not use
    the bound up: if the loop over [RETRY_TRIES] attempts ended by a
    return or a break, the wrapper with [RETRY_TRIES + m] attempts gives
    the same result, device state and trace; so it does whenever the
    wrapper returned a value. *)
Theorem retry_larger_bound_same_run (name : string) (self : D) (m : nat) :
  (fst (fst (loop func RETRY_TRIES self)) <> Exhausted ->
   retry (RETRY_TRIES + m) RETRY_DELAY serial adb_connect install_uiautomator2
     sleep handle_adb_error name func self
   = wrapper name func self) /\
  (forall a,
      fst (fst (wrapper name func self)) = Return a ->
      retry (RETRY_TRIES + m) RETRY_DELAY serial adb_connect
        install_uiautomator2 sleep handle_adb_error name func self
      = wrapper name func self).
Proof.
  assert (Hsame : fst (fst (loop func RETRY_TRIES self)) <> Exhausted ->
                  retry (RETRY_TRIES + m) RETRY_DELAY serial adb_connect
                    install_uiautomator2 sleep handle_adb_error name func self
                  = wrapper name func self).
  { intros Hne. unfold retry. now rewrite (retry_loop_stable _ _ Hne m). }
  split; [exact Hsame|].
  intros a Ha. apply Hsame. intros Hex.
  rewrite of_loop in Ha. cbv zeta in Ha. rewrite Hex in Ha. discriminate.
Qed.

End RetryOutcomes.

(** * Further properties of the device methods *)

Lemma calls_in_invocations_one_each (p : action -> bool) (tr : list event) :
  Forall (fun ev => forall acts r, ev = Invoke acts r -> count_in p acts = 1%nat) tr ->
  calls_in_invocations p tr = invocations tr.
Proof.
  induction 1 as [|ev tr Hev _ IH]; [reflexivity|].
  destruct ev as [acts r|a]; simpl.
  - rewrite (Hev acts r eq_refl), invocations_invoke, IH. reflexivity.
  - rewrite invocations_act. exact IH.
Qed.

Section PathCalls.

Variable point2str : Z -> Z -> string.

Lemma path_calls_touches (length : nat) (path : list waypoint) :
  forall index,
    count_in is_touch (path_calls point2str length index path)
    = List.length path /\
    slept_in (path_calls point2str length index path) = hold_time path.
Proof.
  induction path as [|[[x y] second] rest IH]; intros index.
  - split; reflexivity.
  - destruct (IH (S index)) as (Ht & Hs).
    cbn [path_calls waypoint_calls app slept_in hold_time List.length].
    unfold count_in in *. cbn [filter is_touch List.length].
    rewrite Ht, Hs. split; reflexivity.
Qed.

(** From the second waypoint on: no touch-down, one touch-up (the last
    waypoint), touch-move at all the others. *)
Lemma path_calls_rest (length : nat) (path : list waypoint) :
  forall index,
    (0 < index)%nat -> (index + List.length path)%nat = length ->
    count_in is_touch_down (path_calls point2str length index path) = 0%nat /\
    count_in is_touch_up (path_calls point2str length index path)
    = (match path with [] => 0 | _ :: _ => 1 end)%nat /\
    count_in is_touch_move (path_calls point2str length index path)
    = (List.length path - 1)%nat.
Proof.
  induction path as [|[[x y] second] rest IH]; intros index Hpos Hlen.
  - repeat split.
  - cbn [path_calls waypoint_calls app]. unfold count_in in *.
    destruct rest as [|w rest]; cbn [List.length] in Hlen.
    + rewrite touch_phase_last by lia. repeat split.
    + destruct (IH (S index)) as (Hd & Hu & Hm);
        [lia | cbn [List.length]; lia |].
      rewrite touch_phase_inner by lia.
      cbn [filter is_touch_down is_touch_up is_touch_move List.length].
      rewrite Hd, Hu, Hm. cbn [List.length]. repeat split; lia.
Qed.

Lemma gesture_calls_counts (path : list waypoint) :
  count_in is_touch (gesture_calls point2str path) = List.length path /\
  count_in is_touch_down (gesture_calls point2str path)
  = Nat.min 1 (List.length path) /\
  count_in is_touch_up (gesture_calls point2str path)
  = (if (2 <=? List.length path)%nat then 1 else 0)%nat /\
  count_in is_touch_move (gesture_calls point2str path)
  = (List.length path - 2)%nat /\
  slept_in (gesture_calls point2str path) = hold_time path.
Proof.
  unfold gesture_calls.
  destruct (path_calls_touches (List.length path) path 0) as (Ht & Hs).
  split; [exact Ht|]. split; [|split; [|split; [|exact Hs]]].
  all: destruct path as [|[[x y] second] rest]; [reflexivity|].
  all: match goal with
       | |- context [path_calls _ ?l 0 _] => remember l as len eqn:Hlen
       end.
  all: destruct (@path_calls_rest len rest 1) as (Hd & Hu & Hm);
    [lia | subst len; reflexivity |].
  all: cbn [path_calls waypoint_calls app]; rewrite touch_phase_first.
  all: unfold count_in in *.
  all: cbn [filter is_touch_down is_touch_up is_touch_move List.length].
  all: rewrite ?Hd, ?Hu, ?Hm; subst len; destruct rest;
    cbn [List.length Nat.leb Nat.min]; lia.
Qed.

End PathCalls.

Section DragAlongCounts.

Variable D : Type.
Variable sleep : Q -> D -> D.
Variable point2str : Z -> Z -> string.
Variable u2_touch : phase -> Z -> Z -> D -> option exn * D.

Local Abbreviation drag_body := (drag_along_func sleep point2str u2_touch).

(** X6: a traversal that returns has touched every waypoint once: as
    many touch calls as waypoints, of which one touch-down unless the
    path is empty, one touch-up if the path has at least two waypoints
    and none otherwise, touch-move for all the others; and it has slept
    the hold times of the path added up.  On the empty path it touches
    nothing and sleeps nothing. *)
Theorem drag_along_touches_each_waypoint_once (path : list waypoint) (self : D) :
  fst (fst (drag_body path self)) = Return tt ->
  let acts := snd (drag_body path self) in
  count_in is_touch acts = List.length path /\
  count_in is_touch_down acts = Nat.min 1 (List.length path) /\
  count_in is_touch_up acts = (if (2 <=? List.length path)%nat then 1 else 0)%nat /\
  count_in is_touch_move acts = (List.length path - 2)%nat /\
  slept_in acts = hold_time path.
Proof.
  intros Hret. cbv zeta.
  destruct (drag_along_loop_run sleep point2str u2_touch (List.length path)
              path 0 self) as (_ & Hall).
  unfold drag_along_func in *. rewrite (Hall tt Hret).
  apply gesture_calls_counts.
Qed.

End DragAlongCounts.

Section AppMethods.

Variable D : Type.
Variable RETRY_TRIES : nat.
Variable RETRY_DELAY : Q.
Variable serial : D -> string.
Variable adb_connect : string -> D -> D.
Variable install_uiautomator2 : D -> D.
Variable sleep : Q -> D -> D.
Variable handle_adb_error : exn -> bool.
Variable u2_app_start : string -> D -> option exn * D.
Variable u2_app_current : D -> (exn + dict) * D.

Local Abbreviation dispatch :=
  (except_dispatch serial adb_connect install_uiautomator2 handle_adb_error).
Local Abbreviation loop :=
  (retry_loop RETRY_DELAY serial adb_connect install_uiautomator2 sleep
     handle_adb_error).
Local Abbreviation classify := (spec_classify handle_adb_error).
Local Abbreviation app_start_body := (app_start_func u2_app_start).
Local Abbreviation app_start :=
  (app_start_uiautomator2 RETRY_TRIES RETRY_DELAY serial adb_connect
     install_uiautomator2 sleep handle_adb_error u2_app_start).
Local Abbreviation app_current_body := (app_current_func u2_app_current).
Local Abbreviation app_current :=
  (app_current_uiautomator2 RETRY_TRIES RETRY_DELAY serial adb_connect
     install_uiautomator2 sleep handle_adb_error u2_app_current).

(** The three ways the body of [app_start_uiautomator2] ends. *)
Lemma app_start_func_cases (package_name : string) (self : D) :
  app_start_body package_name self =
  match u2_app_start package_name self with
  | (None, self1) => (Return tt, self1, [AppStart package_name])
  | (Some e, self1) =>
      if isinstance e ExU2BaseError then
        (Raise (raise_bare RequestHumanTakeover), self1,
         [AppStart package_name; LogError e;
          PossibleReasons (package_hint package_name)])
      else (Raise e, self1, [AppStart package_name])
  end.
Proof.
  unfold app_start_func, try_except, agent_call.
  destruct (u2_app_start package_name self) as [[e|] self1]; [|reflexivity].
  destruct (isinstance e ExU2BaseError); reflexivity.
Qed.

(** X7: every invocation of the app-start body makes the agent's
    app-start call exactly once, so over a whole run the number of
    app-start calls is the number of invocations, at most [RETRY_TRIES];
    and the package-name hint is given only by an invocation that then
    raised [RequestHumanTakeover]. *)
Theorem app_start_calls_once_per_invocation (package_name : string) (self : D) :
  calls_in_invocations is_app_start (snd (app_start package_name self))
  = invocations (snd (app_start package_name self)) /\
  (invocations (snd (app_start package_name self)) <= RETRY_TRIES)%nat /\
  Forall (fun ev =>
            forall acts r, ev = Invoke acts r ->
              (exists tail, acts = AppStart package_name :: tail) /\
              (count_in is_possible_reasons acts <> 0%nat ->
               r = Some (raise_bare RequestHumanTakeover)))
    (snd (app_start package_name self)).
Proof.
  assert (Hbody : forall s,
             count_in is_app_start (snd (app_start_body package_name s)) = 1%nat /\
             (exists tail,
                 snd (app_start_body package_name s) = AppStart package_name :: tail) /\
             (count_in is_possible_reasons (snd (app_start_body package_name s))
              <> 0%nat ->
              fst (fst (app_start_body package_name s))
              = Raise (raise_bare RequestHumanTakeover))).
  { intros s. rewrite app_start_func_cases.
    destruct (u2_app_start package_name s) as [[e|] s1];
      [destruct (isinstance e ExU2BaseError)|]; cbn [fst snd];
      (split; [reflexivity|]); (split; [eexists; reflexivity|]);
      intros H; try reflexivity; now elim H. }
  pose proof (retry_invocations RETRY_TRIES RETRY_DELAY serial adb_connect
                install_uiautomator2 sleep handle_adb_error
                (app_start_body package_name) "app_start_uiautomator2" self)
    as Hinv.
  split; [|split].
  - apply calls_in_invocations_one_each.
    eapply Forall_impl; [|exact Hinv].
    intros [acts0 r0|a] Hev acts r Heq; [|discriminate].
    injection Heq as <- <-. destruct Hev as (s & <- & _). apply Hbody.
  - unfold app_start_uiautomator2. rewrite retry_of_loop. cbv zeta.
    pose proof (retry_loop_bound RETRY_DELAY serial adb_connect
                  install_uiautomator2 sleep handle_adb_error
                  (app_start_body package_name) RETRY_TRIES self) as Hb.
    destruct (fst (fst (loop (app_start_body package_name) RETRY_TRIES self)));
      cbn [snd]; rewrite ?invocations_app, ?invocations_act, ?invocations_nil;
      lia.
  - eapply Forall_impl; [|exact Hinv].
    intros [acts0 r0|a] Hev acts r Heq; [|discriminate].
    injection Heq as <- <-. destruct Hev as (s & <- & ->).
    destruct (Hbody s) as (_ & Htail & Hhint). split; [exact Htail|].
    intros H. now rewrite (Hhint H).
Qed.

(** X8: an error of the app-start call that is no agent base error is
    not caught by the body: it leaves the body as it is, with no hint
    logged, and the wrapper's clauses handle it; when they retry it, the
    next invocation makes the app-start call again. *)
Theorem app_start_other_error_reaches_wrapper (package_name : string)
  (self self1 : D) (e : exn) :
  u2_app_start package_name self = (Some e, self1) ->
  exn_cls e <> U2BaseError ->
  app_start_body package_name self = (Raise e, self1, [AppStart package_name]) /\
  (classify e <> Fatal -> classify e <> FatalImmediate ->
   forall n, exists rec again r rest,
     snd (loop (app_start_body package_name) (S (S n)) self)
     = Invoke [AppStart package_name] (Some e)
         :: map Act rec ++ Act (Sleep RETRY_DELAY) :: Invoke again r :: rest /\
     exists tail, again = AppStart package_name :: tail).
Proof.
  intros Hcall Hcls.
  assert (Hf : app_start_body package_name self
               = (Raise e, self1, [AppStart package_name])).
  { rewrite app_start_func_cases, Hcall. unfold isinstance.
    destruct (exn_cls e); try reflexivity. now elim Hcls. }
  split; [exact Hf|]. intros Hnf Hni n.
  destruct (except_dispatch_outcome serial adb_connect install_uiautomator2
              handle_adb_error e self1) as (rec & _ & Ho).
  assert (Hd : exists self2, dispatch e self1 = (Continue, self2, rec)).
  { destruct (classify e); try congruence; destruct Ho as (Hd & _); eauto. }
  destruct Hd as (self2 & Hd).
  rewrite (retry_loop_raise RETRY_DELAY serial adb_connect install_uiautomator2
             sleep handle_adb_error (app_start_body package_name) (S n) self
             Hf Hd).
  cbv zeta. cbn [snd].
  destruct (retry_loop_head RETRY_DELAY serial adb_connect install_uiautomator2
              sleep handle_adb_error (app_start_body package_name) n
              (sleep RETRY_DELAY self2)) as (r & rest & ->).
  exists rec, (snd (app_start_body package_name (sleep RETRY_DELAY self2))),
    r, rest.
  split; [reflexivity|].
  rewrite app_start_func_cases.
  destruct (u2_app_start package_name (sleep RETRY_DELAY self2)) as [[e'|] s'];
    [destruct (isinstance e' ExU2BaseError)|]; eexists; reflexivity.
Qed.

(** X9: a missing [package] field is handled as a passing fault: when
    the answer lacks the field, the [KeyError] is logged, the delay is
    slept, and the request is made again; if the next answer has the
    field, its value is returned and nothing is raised. *)
Theorem app_current_missing_key_then_found (self self1 self2 : D)
  (first second : dict) (package : string) :
  (2 <= RETRY_TRIES)%nat ->
  u2_app_current self = (inr first, self1) ->
  dict_get "package" first = None ->
  u2_app_current (sleep RETRY_DELAY self1) = (inr second, self2) ->
  dict_get "package" second = Some package ->
  app_current self =
  (Return package, self2,
   [Invoke [] (Some (key_error "package"));
    Act (LogException (key_error "package"));
    Act (Sleep RETRY_DELAY);
    Invoke [] None]).
Proof.
  intros Hn H1 Hk1 H2 Hk2.
  unfold app_current_uiautomator2, retry.
  destruct RETRY_TRIES as [|[|n]]; [lia | lia |].
  cbn [retry_loop]. unfold app_current_func at 1. rewrite H1, Hk1.
  cbn [except_dispatch find retry_clauses isinstance key_error exn_cls fst
         on_unknown].
  unfold app_current_func at 1. rewrite H2, Hk2. reflexivity.
Qed.

(** X10: when the answers never have the [package] field, the caller
    never sees a [KeyError]: the request is made [RETRY_TRIES] times,
    and the wrapper then raises [RequestHumanTakeover]. *)
Theorem app_current_missing_key_escalates :
  (forall s, exists result s1,
      u2_app_current s = (inr result, s1) /\ dict_get "package" result = None) ->
  forall self,
    fst (fst (app_current self)) = Raise (raise_bare RequestHumanTakeover) /\
    invocations (snd (app_current self)) = RETRY_TRIES /\
    raised_count (fun c => match c with OtherException => true | _ => false end)
      (snd (app_current self)) = RETRY_TRIES.
Proof.
  intros Hmiss self.
  assert (Hfail : forall s, exists e s1 acts,
             app_current_body s = (Raise e, s1, acts) /\
             classify e = Retryable).
  { intros s. destruct (Hmiss s) as (result & s1 & Hc & Hk).
    exists (key_error "package"), s1, []. unfold app_current_func.
    rewrite Hc, Hk. split; reflexivity. }
  assert (Hraised : forall n s,
             raised_count
               (fun c => match c with OtherException => true | _ => false end)
               (snd (loop app_current_body n s)) = n).
  { induction n as [|n IH]; intros s; [reflexivity|].
    destruct (Hmiss s) as (result & s1 & Hc & Hk).
    assert (Hf : app_current_body s = (Raise (key_error "package"), s1, []))
      by (unfold app_current_func; now rewrite Hc, Hk).
    rewrite (retry_loop_raise RETRY_DELAY serial adb_connect
               install_uiautomator2 sleep handle_adb_error app_current_body n s
               Hf (fl := Continue) (self2 := s1)
               (rec := [LogException (key_error "package")]) eq_refl).
    cbv zeta. cbn [snd].
    rewrite raised_count_invoke, raised_count_app, raised_count_acts,
      raised_count_act, IH.
    reflexivity. }
  destruct (retry_loop_all_retryable RETRY_DELAY serial adb_connect
              install_uiautomator2 sleep handle_adb_error app_current_body
              Hfail RETRY_TRIES self) as (Hex & Hinv & _).
  unfold app_current_uiautomator2. rewrite retry_of_loop. cbv zeta.
  rewrite Hex. cbn [fst snd].
  rewrite invocations_app, raised_count_app, Hinv, Hraised,
    invocations_act, invocations_nil, raised_count_act.
  change (raised_count _ []) with 0%nat.
  repeat split; try reflexivity; lia.
Qed.

End AppMethods.

(** * Further properties of the drag path *)

(** A list whose durations are [n] times [a], then three times [b]. *)
Lemma durations_split (T : Type) (f : T -> Q) (l : list T) (n : nat) (a b : Q) :
  map f l = repeat a n ++ repeat b 3 ->
  List.length l = (n + 3)%nat /\
  Forall (fun w => f w = a) (firstn n l) /\
  Forall (fun w => f w = b) (skipn n l) /\
  List.length (skipn n l) = 3%nat.
Proof.
  intros Hmap.
  assert (Hlen : List.length l = (n + 3)%nat).
  { rewrite <- (length_map f l), Hmap, length_app, !repeat_length.
    reflexivity. }
  destruct (@split_at_length Q (repeat a n) (repeat b 3) n (repeat_length a n))
    as (Hfirst & Hskip).
  rewrite <- Hmap in Hfirst, Hskip.
  rewrite firstn_map in Hfirst. rewrite skipn_map in Hskip.
  split; [exact Hlen|]. split; [|split].
  - apply Forall_forall. intros w Hin.
    apply (in_map f) in Hin. rewrite Hfirst in Hin.
    now apply repeat_spec in Hin.
  - apply Forall_forall. intros w Hin.
    apply (in_map f) in Hin. rewrite Hskip in Hin.
    now apply repeat_spec in Hin.
  - rewrite length_skipn, Hlen. lia.
Qed.

(** [int] of a finite whole number is that number. *)
Lemma np_int_integer (a : num) (c : Q) (z w : Z) :
  np_value a = Some c -> c == inject_Z z -> np_int a = inr w -> w = z.
Proof.
  destruct a as [x|q|s|]; cbn [np_value np_int]; intros Hc Hz Hw;
    try discriminate; injection Hc as <-; injection Hw as <-.
  - unfold Qeq in Hz. cbn in Hz. lia.
  - now apply py_int_integer.
Qed.

Section DragPath.

Variable G : Type.
Variable random_rectangle_point : area -> G -> point * G.

Local Abbreviation raw_path := (drag_raw_path random_rectangle_point).
Local Abbreviation pixel_path := (drag_path random_rectangle_point).

(** X11: whatever the draws, the path [drag_uiautomator2] builds has
    [segments + 4] waypoints: the [segments + 1] points of the line
    carry the swipe duration, and the three waypoints after them (the
    overshoot, the correction, the settle point) carry the shake
    duration.  This holds of the path before its coordinates are turned
    into integers and of the path handed to [_drag_along]. *)
Theorem drag_path_has_line_and_three_shake_waypoints (p1 p2 : point)
  (segments : nat) (shake : point) (point_random shake_random : area)
  (swipe_duration shake_duration : Q) (g : G) :
  let raw :=
    fst (raw_path p1 p2 segments shake point_random shake_random
           swipe_duration shake_duration g) in
  (List.length raw = (segments + 4)%nat /\
   Forall (fun r : num * num * Q => snd r = swipe_duration)
     (firstn (S segments) raw) /\
   Forall (fun r : num * num * Q => snd r = shake_duration)
     (skipn (S segments) raw) /\
   List.length (skipn (S segments) raw) = 3%nat) /\
  (forall path,
      fst (pixel_path p1 p2 segments shake point_random shake_random
             swipe_duration shake_duration g) = inr path ->
      List.length path = (segments + 4)%nat /\
      Forall (fun w : waypoint => snd w = swipe_duration)
        (firstn (S segments) path) /\
      Forall (fun w : waypoint => snd w = shake_duration)
        (skipn (S segments) path) /\
      List.length (skipn (S segments) path) = 3%nat).
Proof.
  cbv zeta.
  pose proof (drag_raw_path_durations random_rectangle_point p1 p2 segments
                shake point_random shake_random swipe_duration shake_duration g)
    as Hd.
  unfold drag_path.
  destruct (raw_path p1 p2 segments shake point_random shake_random
              swipe_duration shake_duration g) as [raw g'].
  cbn [fst] in *. split.
  - destruct (durations_split _ _ _ _ _ Hd) as (Hlen & Hrest).
    split; [lia | exact Hrest].
  - intros path Hpath. apply all_pixels_durations in Hpath.
    rewrite Hd in Hpath.
    destruct (durations_split _ _ _ _ _ Hpath) as (Hlen & Hrest).
    split; [lia | exact Hrest].
Qed.

(** X14: [int] leaves whole numbers alone: wherever a coordinate of the
    path before conversion is a whole number, the waypoint has exactly
    that integer. *)
Theorem drag_path_keeps_integer_coordinates (p1 p2 : point) (segments : nat)
  (shake : point) (point_random shake_random : area)
  (swipe_duration shake_duration : Q) (g : G) (path : list waypoint) :
  fst (pixel_path p1 p2 segments shake point_random shake_random
         swipe_duration shake_duration g) = inr path ->
  Forall2 (fun r w =>
             (forall c z, np_value (fst (fst r)) = Some c ->
                          c == inject_Z z -> fst (fst w) = z) /\
             (forall c z, np_value (snd (fst r)) = Some c ->
                          c == inject_Z z -> snd (fst w) = z))
    (fst (raw_path p1 p2 segments shake point_random shake_random
            swipe_duration shake_duration g))
    path.
Proof.
  unfold drag_path.
  destruct (raw_path p1 p2 segments shake point_random shake_random
              swipe_duration shake_duration g) as [raw g'].
  cbn [fst]. intros Hpath. apply all_pixels_some in Hpath.
  eapply Forall2_impl; [|exact Hpath].
  intros r w (Hx & Hy & _). cbn beta.
  split; intros c z Hc Hz; eapply np_int_integer; eassumption.
Qed.

End DragPath.

(** ** The further properties on the scripted devices *)

Lemma retry_sleeps_once_per_retried_failure_witness :
  fst (fst (retry_loop 3 Demo.serial Demo.adb_connect Demo.install_uiautomator2
              Demo.sleep Demo.handle_adb_error Demo.always_unknown 3 []))
  = Exhausted /\
  count_act is_sleep
    (snd (Demo.retry 3 "click_uiautomator2" Demo.always_unknown [])) = 3%nat.
Proof.
  split; [reflexivity|].
  destruct (@retry_sleeps_once_per_retried_failure _ 3%nat 3 Demo.serial
              Demo.adb_connect Demo.install_uiautomator2 Demo.sleep
              Demo.handle_adb_error _ Demo.always_unknown
              "click_uiautomator2" [])
    as (_ & _ & _ & _ & _ & Hex).
  exact (proj2 (Hex eq_refl)).
Defined.

Lemma retry_returns_what_last_invocation_returned_witness :
  fst (fst (Demo.retry 3 "click_uiautomator2" Demo.click [Some Demo.reset; None]))
  = Return tt /\
  exists pre acts,
    snd (Demo.retry 3 "click_uiautomator2" Demo.click [Some Demo.reset; None])
    = pre ++ [Invoke acts None].
Proof.
  split; [reflexivity|].
  destruct (proj1 (@retry_returns_what_last_invocation_returned _ 3%nat 3
                     Demo.serial Demo.adb_connect Demo.install_uiautomator2
                     Demo.sleep Demo.handle_adb_error _ Demo.click
                     "click_uiautomator2" [Some Demo.reset; None]) tt eq_refl)
    as (pre & acts & s & Htr & _).
  exists pre, acts. exact Htr.
Defined.

Lemma retry_stops_on_fatal_error_witness :
  snd (Demo.retry 3 "click_uiautomator2" Demo.click [Some Script.handshake; None])
  = [] ++ Invoke [] (Some Script.handshake)
      :: [Act (LogException Script.handshake);
          Act (PossibleReasons enable_adb_hint);
          Act (LogCritical "Retry click_uiautomator2() failed")] /\
  spec_classify Demo.handle_adb_error Script.handshake = Fatal /\
  invocations
    (snd (Demo.retry 3 "click_uiautomator2" Demo.click
            [Some Script.handshake; None])) = 1%nat.
Proof.
  split; [reflexivity|]. split; [reflexivity|].
  destruct (@retry_stops_on_fatal_error _ 3%nat 3 Demo.serial Demo.adb_connect
              Demo.install_uiautomator2 Demo.sleep Demo.handle_adb_error _
              Demo.click "click_uiautomator2" [Some Script.handshake; None]
              []
              [Act (LogException Script.handshake);
               Act (PossibleReasons enable_adb_hint);
               Act (LogCritical "Retry click_uiautomator2() failed")]
              [] Script.handshake eq_refl eq_refl)
    as (_ & Hinv & _).
  exact Hinv.
Defined.

Lemma retry_larger_bound_same_run_witness :
  fst (fst (Demo.retry 2 "click_uiautomator2" Demo.click [Some Demo.reset; None]))
  = Return tt /\
  Demo.retry (2 + 5) "click_uiautomator2" Demo.click [Some Demo.reset; None]
  = Demo.retry 2 "click_uiautomator2" Demo.click [Some Demo.reset; None].
Proof.
  split; [reflexivity|].
  exact (proj2 (@retry_larger_bound_same_run _ 2%nat 3 Demo.serial
                  Demo.adb_connect Demo.install_uiautomator2 Demo.sleep
                  Demo.handle_adb_error _ Demo.click "click_uiautomator2"
                  [Some Demo.reset; None] 5%nat) tt eq_refl).
Defined.

Lemma drag_along_touches_each_waypoint_once_witness :
  fst (fst (drag_along_func Demo.sleep Demo.point2str Demo.u2_touch
              Demo.example_path [])) = Return tt /\
  count_in is_touch_up
    (snd (drag_along_func Demo.sleep Demo.point2str Demo.u2_touch
            Demo.example_path [])) = 1%nat /\
  slept_in
    (snd (drag_along_func Demo.sleep Demo.point2str Demo.u2_touch
            Demo.example_path [])) = hold_time Demo.example_path.
Proof.
  split; [reflexivity|].
  destruct (@drag_along_touches_each_waypoint_once _ Demo.sleep Demo.point2str
              Demo.u2_touch Demo.example_path [] eq_refl)
    as (_ & _ & Hup & _ & Hslept).
  split; [exact Hup | exact Hslept].
Defined.

Lemma app_start_other_error_reaches_wrapper_witness :
  Demo.u2_app_start "com.bilibili.azurlane" [Some Demo.reset; None]
  = (Some Demo.reset, [None]) /\
  exn_cls Demo.reset <> U2BaseError /\
  app_start_func Demo.u2_app_start "com.bilibili.azurlane"
    [Some Demo.reset; None]
  = (Raise Demo.reset, [None], [AppStart "com.bilibili.azurlane"]).
Proof.
  split; [reflexivity|].
  assert (Hcls : exn_cls Demo.reset <> U2BaseError) by discriminate.
  split; [exact Hcls|].
  exact (proj1 (@app_start_other_error_reaches_wrapper _ 3 Demo.serial
                  Demo.adb_connect Demo.install_uiautomator2 Demo.sleep
                  Demo.handle_adb_error Demo.u2_app_start
                  "com.bilibili.azurlane" [Some Demo.reset; None] [None]
                  Demo.reset eq_refl Hcls)).
Defined.

Lemma app_current_missing_key_then_found_witness :
  (2 <= 3)%nat /\
  Script.u2_app_current [inr Script.launcher; inr Script.game]
  = (inr Script.launcher, [inr Script.game]) /\
  dict_get "package" Script.launcher = None /\
  Script.u2_app_current (Script.sleep 3 [inr Script.game])
  = (inr Script.game, []) /\
  dict_get "package" Script.game = Some "com.bilibili.azurlane"%string /\
  fst (fst (app_current_uiautomator2 3 3 Script.serial Script.adb_connect
              Script.install_uiautomator2 Script.sleep Script.handle_adb_error
              Script.u2_app_current [inr Script.launcher; inr Script.game]))
  = Return "com.bilibili.azurlane"%string.
Proof.
  split; [lia|]. do 4 (split; [reflexivity|]).
  rewrite (@app_current_missing_key_then_found _ 3%nat 3 Script.serial
             Script.adb_connect Script.install_uiautomator2 Script.sleep
             Script.handle_adb_error Script.u2_app_current
             [inr Script.launcher; inr Script.game] [inr Script.game] []
             Script.launcher Script.game "com.bilibili.azurlane"
             ltac:(lia) eq_refl eq_refl eq_refl eq_refl).
  reflexivity.
Defined.

Lemma app_current_missing_key_escalates_witness :
  (forall s, exists result s1,
      Script.no_package s = (inr result, s1) /\
      dict_get "package" result = None) /\
  fst (fst (app_current_uiautomator2 4 3 (fun _ : unit => "emulator-5554"%string)
              (fun _ s => s) (fun s => s) (fun _ s => s) (fun _ => false)
              Script.no_package tt))
  = Raise (raise_bare RequestHumanTakeover) /\
  invocations
    (snd (app_current_uiautomator2 4 3 (fun _ : unit => "emulator-5554"%string)
            (fun _ s => s) (fun s => s) (fun _ s => s) (fun _ => false)
            Script.no_package tt)) = 4%nat.
Proof.
  assert (Hmiss : forall s, exists result s1,
             Script.no_package s = (inr result, s1) /\
             dict_get "package" result = None).
  { intros s. exists Script.launcher, s. split; reflexivity. }
  split; [exact Hmiss|].
  destruct (@app_current_missing_key_escalates _ 4%nat 3
              (fun _ : unit => "emulator-5554"%string)
              (fun _ s => s) (fun s => s) (fun _ s => s) (fun _ => false)
              Script.no_package Hmiss tt)
    as (Hres & Hinv & _).
  split; [exact Hres | exact Hinv].
Defined.

Lemma drag_path_has_line_and_three_shake_waypoints_witness :
  fst (drag_path Demo.tape_point (Int64 100, Int64 200) (Int64 302, Int64 400)
         2 (Int64 0, Int64 15) (- (10), - (10), 10, 10) (- (5), - (5), 5, 5)
         (1 # 4) (1 # 10) [(Int64 3, Int64 4); (Int64 20, Int64 (-20))])
  = inr [(87, 186, 1 # 4); (194, 293, 1 # 4); (302, 400, 1 # 4);
          (307, 420, 1 # 10); (317, 400, 1 # 10); (312, 410, 1 # 10)]%Z /\
  List.length [(87, 186, 1 # 4); (194, 293, 1 # 4); (302, 400, 1 # 4);
               (307, 420, 1 # 10); (317, 400, 1 # 10); (312, 410, 1 # 10)]%Z
  = (2 + 4)%nat.
Proof.
  assert (Hpath :
    fst (drag_path Demo.tape_point (Int64 100, Int64 200)
           (Int64 302, Int64 400) 2 (Int64 0, Int64 15)
           (- (10), - (10), 10, 10) (- (5), - (5), 5, 5) (1 # 4) (1 # 10)
           [(Int64 3, Int64 4); (Int64 20, Int64 (-20))])
    = inr [(87, 186, 1 # 4); (194, 293, 1 # 4); (302, 400, 1 # 4);
            (307, 420, 1 # 10); (317, 400, 1 # 10); (312, 410, 1 # 10)]%Z)
    by (vm_compute; reflexivity).
  split; [exact Hpath|].
  exact (proj1 (proj2 (@drag_path_has_line_and_three_shake_waypoints _
                         Demo.tape_point (Int64 100, Int64 200)
                         (Int64 302, Int64 400) 2%nat (Int64 0, Int64 15)
                         (- (10), - (10), 10, 10) (- (5), - (5), 5, 5)
                         (1 # 4) (1 # 10)
                         [(Int64 3, Int64 4); (Int64 20, Int64 (-20))])
                 _ Hpath)).
Defined.

Lemma drag_path_keeps_integer_coordinates_witness :
  fst (drag_path Demo.tape_point (Int64 100, Int64 200) (Float64 300, Int64 400)
         1 (Int64 0, Int64 15) zero_area zero_area (1 # 4) (1 # 10) [])
  = inr [(100, 200, 1 # 4); (300, 400, 1 # 4); (300, 415, 1 # 10);
          (300, 385, 1 # 10); (300, 400, 1 # 10)]%Z /\
  List.length
    (fst (drag_raw_path Demo.tape_point (Int64 100, Int64 200)
            (Float64 300, Int64 400) 1 (Int64 0, Int64 15) zero_area zero_area
            (1 # 4) (1 # 10) [])) = 5%nat.
Proof.
  assert (Hpath :
    fst (drag_path Demo.tape_point (Int64 100, Int64 200)
           (Float64 300, Int64 400) 1 (Int64 0, Int64 15) zero_area zero_area
           (1 # 4) (1 # 10) [])
    = inr [(100, 200, 1 # 4); (300, 400, 1 # 4); (300, 415, 1 # 10);
            (300, 385, 1 # 10); (300, 400, 1 # 10)]%Z)
    by (vm_compute; reflexivity).
  split; [exact Hpath|].
  rewrite (Forall2_length
             (@drag_path_keeps_integer_coordinates _ Demo.tape_point
                (Int64 100, Int64 200) (Float64 300, Int64 400) 1%nat
                (Int64 0, Int64 15) zero_area zero_area (1 # 4) (1 # 10) []
                _ Hpath)).
  reflexivity.
Defined.

(** ** The arithmetic of the arrays in the path *)

(** X15: the waypoints after the line are computed on float64 arrays
    when the end point has a float, so a sum is rounded before [int]
    sees it: for the end point [(0.0, 1 - 2^-53)] and shake [(0, 15)]
    the overshoot is at [y = 16], while the exact sum [16 - 2^-53]
    would be cut to [15]. *)
Lemma drag_shake_sums_are_rounded :
  exists path,
    fst (drag_path Demo.tape_point (Int64 0, Int64 0)
           (Float64 0, Float64 (1 - (1 # 9007199254740992)))
           1 (Int64 0, Int64 15) zero_area zero_area (1 # 4) (1 # 10) [])
    = inr path /\
    skipn 2 path = [(0, 16, 1 # 10); (0, -14, 1 # 10); (0, 0, 1 # 10)]%Z /\
    py_int (1 - (1 # 9007199254740992) + 15) = 15%Z.
Proof.
  eexists. split; [vm_compute; reflexivity|]. split; reflexivity.
Qed.

(** X16: on int64 arrays the sums wrap around: for the end point
    [(2^63 - 1, 0)] given as ints, shake [(1, 15)] and draws that are
    ints, the overshoot is at [x = -2^63]. *)
Lemma drag_shake_sums_wrap_around :
  exists path,
    fst (drag_path Demo.tape_point (Int64 0, Int64 0)
           (Int64 9223372036854775807, Int64 0)
           1 (Int64 1, Int64 15) zero_area zero_area (1 # 4) (1 # 10) [])
    = inr path /\
    skipn 2 path = [(-9223372036854775808, 15, 1 # 10);
                    (9223372036854775806, -15, 1 # 10);
                    (9223372036854775807, 0, 1 # 10)]%Z.
Proof.
  eexists. split; [vm_compute; reflexivity|]. reflexivity.
Qed.
